(** * VIA backend: analytics engine and pipeline orchestrator

    A shallow embedding of [app/services/analytics.py],
    [app/services/pipeline.py], [app/services/logger.py] and the record
    types of [app/schemas/results.py] and [app/models/job.py], with the
    properties the specification states about them; and of the code
    around them: [WhisperTranscriber] of [app/services/transcription.py],
    [get_results] and [_download_and_process_youtube] of
    [app/api/routes/jobs.py], [save_upload] of [app/utils/files.py].

    Conventions.
    - Python [float] is IEEE 754 binary64: the kernel's primitive [float].
    - Python [int] is unbounded: [Z].
    - Python [str] is [string]; [str.lower] and [str.split] are taken from
      an interface ([StrLib]) with an executable ASCII instance.
    - [dict] and [Counter] keep insertion order: association lists with
      distinct keys, oldest key first.
    - [set] has no specified iteration order (it follows the string hash
      seed of the interpreter): every [set(...)] goes through an
      interface ([SetOrder]) that may return the distinct elements in any
      order.
    - The job table and the result directory are finite maps; the world
      also keeps every version of a job row that was committed, so that
      the transitions of a job can be stated.
    - A function that reads or writes the database, the disk or the clock
      is a computation in the monad [M]: it takes the world, and returns
      a value or an exception together with the new world. *)

From Stdlib Require Import List ZArith Lia String Ascii Bool PrimFloat.
From Stdlib Require Import Permutation Sorted OrdersEx DecimalString.
From stdpp Require Import gmap strings.
Import ListNotations.

Set Warnings "-inexact-float".

#[local] Open Scope list_scope.

(* ===================================================================== *)
(** * Python builtins used by the source *)
(* ===================================================================== *)

(** ** Lists: order of first appearance *)

Section FirstSeen.
Context {K : Type} (K_dec : forall x y : K, {x = y} + {x <> y}).

(** [mem x l]: Python's [x in l]. *)
Definition mem (x : K) (l : list K) : bool :=
  List.existsb (fun y => if K_dec x y then true else false) l.

(** The distinct elements of [l], each at the place of its first
    occurrence: the key order of [Counter(l)] and of [dict.fromkeys(l)]. *)
Fixpoint first_seen_acc (seen l : list K) : list K :=
  match l with
  | [] => []
  | x :: r =>
      if mem x seen then first_seen_acc seen r
      else x :: first_seen_acc (x :: seen) r
  end.

Definition first_seen (l : list K) : list K := first_seen_acc [] l.

(** Number of occurrences, as a Python [int]. *)
Definition occurrences (x : K) (l : list K) : Z :=
  Z.of_nat (List.count_occ K_dec l x).
End FirstSeen.

(** [precedes x y l]: an occurrence of [x] stands before an occurrence of
    [y] in [l]. *)
Definition precedes {A : Type} (x y : A) (l : list A) : Prop :=
  exists l1 l2 l3, l = l1 ++ x :: l2 ++ y :: l3.

(** ** [collections.Counter] *)

Section Counter.
Context {K : Type} (K_dec : forall x y : K, {x = y} + {x <> y}).

(** [c[k] += 1] on a [Counter]: a missing key counts as 0 and is added
    at the end; a present key keeps its place. *)
Fixpoint incr (k : K) (c : list (K * Z)) : list (K * Z) :=
  match c with
  | [] => [(k, 1%Z)]
  | (k', n) :: r =>
      if K_dec k k' then (k', (n + 1)%Z) :: r else (k', n) :: incr k r
  end.

(** [Counter(iterable)]. *)
Definition Counter (xs : list K) : list (K * Z) :=
  List.fold_left (fun c k => incr k c) xs [].

(** One step of a stable sort by decreasing count: [x] goes before the
    first item whose count is not larger than its own. *)
Fixpoint insert_desc (x : K * Z) (l : list (K * Z)) : list (K * Z) :=
  match l with
  | [] => [x]
  | y :: r =>
      if (snd x <? snd y)%Z then y :: insert_desc x r else x :: y :: r
  end.

(** [Counter.most_common()] is
    [sorted(self.items(), key=itemgetter(1), reverse=True)]: a stable
    sort by decreasing count (items with equal counts keep the order of
    the dict). A stable sort has one result, so insertion sort stands for
    Python's merge sort. *)
Definition most_common (c : list (K * Z)) : list (K * Z) :=
  List.fold_right insert_desc [] c.
End Counter.

(** [d.get(k)] on a dict: the value under [k], if any. *)
Fixpoint dict_get (d : list (string * Z)) (k : string) : option Z :=
  match d with
  | [] => None
  | (k', v) :: r => if String.eqb k' k then Some v else dict_get r k
  end.

(** ** [itertools.combinations] *)

(** [combinations l r]: the [r]-element subsequences of [l], in the
    lexicographic order of their positions. *)
Fixpoint combinations {A : Type} (l : list A) (r : nat) {struct l}
  : list (list A) :=
  match r, l with
  | O, _ => [[]]
  | S _, [] => []
  | S r', x :: t => List.map (cons x) (combinations t r') ++ combinations t r
  end.

(** ** [sorted] on strings *)

(** Python orders [str] by code point; on UTF-8 text that is the order of
    the bytes, [String.leb]. *)
Fixpoint insert_str (x : string) (l : list string) : list string :=
  match l with
  | [] => [x]
  | y :: r => if String.ltb y x then y :: insert_str x r else x :: y :: r
  end.

Definition sorted (l : list string) : list string :=
  List.fold_right insert_str [] l.

(** ** [set] *)

(** The iteration order of a set of strings depends on the hash seed of
    the interpreter run. [set_elements l] is the order in which
    [set(l)] is iterated: some arrangement of the distinct elements. *)
Class SetOrder := {
  set_elements : list string -> list string;
  set_elements_perm :
    forall l, Permutation (set_elements l) (first_seen string_dec l)
}.

(** Two iteration orders: the order of insertion, and its reverse. *)
#[export] Instance insertion_order : SetOrder :=
  {| set_elements := first_seen string_dec;
     set_elements_perm := fun l => Permutation_refl _ |}.

Definition reverse_order : SetOrder :=
  {| set_elements := fun l => List.rev (first_seen string_dec l);
     set_elements_perm := fun l => Permutation_sym (Permutation_rev _) |}.

(** [a & b] on sets, and the truth value of a set. *)
Definition set_inter (a b : list string) : list string :=
  List.filter (fun w => mem string_dec w b) a.

Definition truthy {A : Type} (l : list A) : bool :=
  match l with [] => false | _ :: _ => true end.

(** ** [str.lower] and [str.split] *)

Class StrLib := {
  lower : string -> string;
  split : string -> list string
}.

Module Ascii_str.
(** [str.lower] on ASCII text: [A]..[Z] become [a]..[z]. *)
Definition lower_char (c : ascii) : ascii :=
  let n := nat_of_ascii c in
  if (65 <=? n)%nat && (n <=? 90)%nat then ascii_of_nat (n + 32) else c.

Fixpoint lower (s : string) : string :=
  match s with
  | EmptyString => EmptyString
  | String c r => String (lower_char c) (lower r)
  end.

(** ASCII whitespace as [str.isspace] sees it: tab, line feed, vertical
    tab, form feed, carriage return, the four separators 28..31, space. *)
Definition is_space (c : ascii) : bool :=
  let n := nat_of_ascii c in
  ((9 <=? n)%nat && (n <=? 13)%nat) || ((28 <=? n)%nat && (n <=? 32)%nat).

(** [split_acc cur s]: [cur] is the word being read, reversed. *)
Fixpoint split_acc (cur : list ascii) (s : string) : list string :=
  let flush (rest : list string) :=
    match cur with
    | [] => rest
    | _ :: _ => string_of_list_ascii (List.rev cur) :: rest
    end in
  match s with
  | EmptyString => flush []
  | String c r =>
      if is_space c then flush (split_acc [] r)
      else split_acc (c :: cur) r
  end.

(** [s.split()] with no argument: runs of whitespace separate, and no
    empty word is produced. *)
Definition split (s : string) : list string := split_acc [] s.
End Ascii_str.

#[export] Instance ascii_strlib : StrLib :=
  {| lower := Ascii_str.lower; split := Ascii_str.split |}.

(* ===================================================================== *)
(** * [app/schemas/results.py] *)
(* ===================================================================== *)

Module TranscriptSegment.
Record t := mk { start : float; end_ : float; text : string }.
End TranscriptSegment.

Module ObjectDetection.
Record t := mk {
  timestamp : float;
  label : string;
  confidence : float;
  instance_id : option Z
}.
End ObjectDetection.

Module ObjectFrequency.
Record t := mk { label : string; count : Z }.
End ObjectFrequency.

Module CoOccurrenceEntry.
Record t := mk { labels : list string; count : Z }.
End CoOccurrenceEntry.

Module SentimentPoint.
Record t := mk { timestamp : float; sentiment : float }.
End SentimentPoint.

Module TimelineEntry.
Record t := mk {
  timestamp : float;
  transcript : option string;
  objects : list (string * Z)
}.
End TimelineEntry.

Module AnalyticsBundle.
Record t := mk {
  object_frequency : list ObjectFrequency.t;
  co_occurrence : list CoOccurrenceEntry.t;
  sentiment_trend : list SentimentPoint.t
}.
End AnalyticsBundle.

Module PipelineResult.
Record t := mk {
  transcript : list TranscriptSegment.t;
  detections : list ObjectDetection.t;
  timeline : list TimelineEntry.t;
  analytics : AnalyticsBundle.t;
  summary : string
}.
End PipelineResult.

(* ===================================================================== *)
(** * [app/services/analytics.py] *)
(* ===================================================================== *)

Definition list_string_dec : forall x y : list string, {x = y} + {x <> y} :=
  List.list_eq_dec string_dec.

(** [start <= detection.timestamp <= end], on floats. *)
Definition in_window (start end_ : float) (detection : ObjectDetection.t)
  : bool :=
  (start <=? ObjectDetection.timestamp detection)%float
  && (ObjectDetection.timestamp detection <=? end_)%float.

Definition build_timeline
    (transcript : list TranscriptSegment.t)
    (detections : list ObjectDetection.t) (window : float)
  : list TimelineEntry.t :=
  List.fold_left
    (fun timeline segment =>
       let start := (TranscriptSegment.start segment - window / 2)%float in
       let end_ := (TranscriptSegment.end_ segment + window / 2)%float in
       let window_detections := List.filter (in_window start end_) detections in
       let object_counts :=
         Counter string_dec
                 (List.map ObjectDetection.label window_detections) in
       timeline ++
       [TimelineEntry.mk (TranscriptSegment.start segment)
                         (Some (TranscriptSegment.text segment))
                         object_counts])
    transcript [].

Definition compute_object_frequency (detections : list ObjectDetection.t)
  : list ObjectFrequency.t :=
  let counter :=
    Counter string_dec (List.map ObjectDetection.label detections) in
  List.map (fun '(label, count) => ObjectFrequency.mk label count)
           (most_common counter).

(** The labels [compute_co_occurrence] reads off one entry:
    [[label for label, count in entry.objects.items() if count > 0]]. *)
Definition positive_labels (entry : TimelineEntry.t) : list string :=
  List.map fst
    (List.filter (fun '(_, count) => (0 <? count)%Z)
                 (TimelineEntry.objects entry)).

(** The pairs one entry contributes:
    [combinations(sorted(set(labels)), 2)]. *)
Definition entry_combos {O : SetOrder} (entry : TimelineEntry.t)
  : list (list string) :=
  combinations (sorted (set_elements (positive_labels entry))) 2.

Definition compute_co_occurrence {O : SetOrder}
    (timeline : list TimelineEntry.t) : list CoOccurrenceEntry.t :=
  let pair_counter :=
    List.fold_left
      (fun pair_counter entry =>
         List.fold_left (fun c combo => incr list_string_dec combo c)
                        (entry_combos entry) pair_counter)
      timeline [] in
  List.map (fun '(labels, count) => CoOccurrenceEntry.mk labels count)
           (most_common pair_counter).

Definition positive_keywords : list string :=
  ["good"; "great"; "excellent"; "happy"; "success"; "win"]%string.
Definition negative_keywords : list string :=
  ["bad"; "poor"; "sad"; "fail"; "loss"; "danger"]%string.

(** The score of one segment's text. *)
Definition segment_score {L : StrLib} {O : SetOrder} (text : string) : float :=
  let words := set_elements (split (lower text)) in
  let score := 0.0%float in
  let score :=
    if truthy (set_inter words positive_keywords) then (score + 0.6)%float
    else score in
  let score :=
    if truthy (set_inter words negative_keywords) then (score - 0.6)%float
    else score in
  score.

Definition compute_sentiment {L : StrLib} {O : SetOrder}
    (transcript : list TranscriptSegment.t) : list SentimentPoint.t :=
  List.fold_left
    (fun results segment =>
       results ++
       [SentimentPoint.mk (TranscriptSegment.start segment)
                          (segment_score (TranscriptSegment.text segment))])
    transcript [].

(** [timeline or build_timeline(...)]: [None] and the empty list are both
    false. *)
Definition build_analytics_bundle {L : StrLib} {O : SetOrder}
    (transcript : list TranscriptSegment.t)
    (detections : list ObjectDetection.t) (window : float)
    (timeline : option (list TimelineEntry.t)) : AnalyticsBundle.t :=
  let timeline :=
    match timeline with
    | Some (e :: r) => e :: r
    | Some [] | None => build_timeline transcript detections window
    end in
  AnalyticsBundle.mk
    (compute_object_frequency detections)
    (compute_co_occurrence timeline)
    (compute_sentiment transcript).

(* ===================================================================== *)
(** * Exceptions and results *)
(* ===================================================================== *)

(** The exception classes the modelled code raises or meets. *)
Inductive exn :=
| ValueError (msg : string)
| RuntimeError (msg : string)
| OSError (msg : string)
| IntegrityError (msg : string)
| NotImplementedError.

(** [str(exc)]: the message; a bare [raise NotImplementedError] has none. *)
Definition str_exc (e : exn) : string :=
  match e with
  | ValueError msg | RuntimeError msg | OSError msg | IntegrityError msg => msg
  | NotImplementedError => ""
  end.

Inductive result (A : Type) :=
| Ok (a : A)
| Raise (e : exn).
Arguments Ok {A} a.
Arguments Raise {A} e.

(* ===================================================================== *)
(** * [app/models/job.py] *)
(* ===================================================================== *)

Inductive JobStatus := PENDING | PROCESSING | COMPLETED | FAILED.
Inductive JobInputType := UPLOAD | YOUTUBE.

Definition JobInputType_value (t : JobInputType) : string :=
  match t with UPLOAD => "upload" | YOUTUBE => "youtube" end.

Module Job.
Record t := mk {
  id : string;
  input_type : JobInputType;
  source : string;
  status : JobStatus;
  created_at : nat;
  updated_at : nat;
  error_message : option string;
  result_path : option string
}.

(** Attribute assignments. *)
Definition set_status (s : JobStatus) (j : t) : t :=
  mk (id j) (input_type j) (source j) s (created_at j) (updated_at j)
     (error_message j) (result_path j).
Definition set_updated_at (n : nat) (j : t) : t :=
  mk (id j) (input_type j) (source j) (status j) (created_at j) n
     (error_message j) (result_path j).
Definition set_error_message (m : string) (j : t) : t :=
  mk (id j) (input_type j) (source j) (status j) (created_at j)
     (updated_at j) (Some m) (result_path j).
Definition set_result_path (p : string) (j : t) : t :=
  mk (id j) (input_type j) (source j) (status j) (created_at j)
     (updated_at j) (error_message j) (Some p).
End Job.

Module JobLog.
Record t := mk {
  id : option nat;
  job_id : string;
  created_at : nat;
  level : string;
  message : string
}.
End JobLog.

(* ===================================================================== *)
(** * The world the orchestrator acts on *)
(* ===================================================================== *)

Record World := mkWorld {
  (** table [job], by primary key *)
  jobs : gmap string Job.t;
  (** every version of a row that a session committed to table [job],
      oldest first: what a reader of the table can have seen *)
  history : list Job.t;
  (** table [joblog], in insertion order *)
  job_logs : list JobLog.t;
  (** the JSON documents on disk, by path *)
  files : gmap string PipelineResult.t;
  (** the paths that cannot be opened for writing, each with the message
      of the [OSError] that opening it raises *)
  write_protected : gmap string string;
  (** the clock read by [datetime.utcnow()] *)
  now : nat;
  (** records of the [logging] module: level and message *)
  app_log : list (string * string)
}.

(** Computations that read and change the world and may raise. What was
    committed before an exception stays committed. *)
Definition M (A : Type) : Type := World -> result A * World.

Definition ret {A : Type} (a : A) : M A := fun w => (Ok a, w).
Definition raise {A : Type} (e : exn) : M A := fun w => (Raise e, w).
Definition bind {A B : Type} (c : M A) (k : A -> M B) : M B :=
  fun w =>
    match c w with
    | (Ok a, w') => k a w'
    | (Raise e, w') => (Raise e, w')
    end.
(** A call into a collaborator that returns or raises. *)
Definition call {A : Type} (r : result A) : M A := fun w => (r, w).
(** [try: body  except Exception as exc: handler]. *)
Definition try_except {A : Type} (body : M A) (handler : exn -> M A) : M A :=
  fun w =>
    match body w with
    | (Ok a, w') => (Ok a, w')
    | (Raise exc, w') => handler exc w'
    end.

Notation "x <- c ;; k" := (bind c (fun x => k))
  (at level 100, c at next level, right associativity).
Notation "c ;;; k" := (bind c (fun _ => k))
  (at level 100, right associativity).

(** [datetime.utcnow()]. *)
Definition utcnow : M nat :=
  fun w =>
    (Ok (now w),
     mkWorld (jobs w) (history w) (job_logs w) (files w) (write_protected w)
             (S (now w)) (app_log w)).

(** [session.get(Job, job_id)]. *)
Definition session_get (job_id : string) : M (option Job.t) :=
  fun w => (Ok (jobs w !! job_id), w).

(** Leaving a [session_scope()] block in which the row [job], held under
    the primary key [job_id], was changed or added: the commit. *)
Definition commit (job_id : string) (job : Job.t) : M unit :=
  fun w =>
    (Ok tt,
     mkWorld (<[job_id := job]> (jobs w)) (history w ++ [job])
             (job_logs w) (files w) (write_protected w) (now w) (app_log w)).

(** [logger.info], [logger.exception] of the [logging] module. *)
Definition logger (level msg : string) : M unit :=
  fun w =>
    (Ok tt,
     mkWorld (jobs w) (history w) (job_logs w) (files w) (write_protected w)
             (now w) (app_log w ++ [(level, msg)])).

(** [with path.open("w") as fp: json.dump(result.dict(), fp, indent=2)]. *)
Definition write_json (path : string) (doc : PipelineResult.t) : M unit :=
  fun w =>
    match write_protected w !! path with
    | Some msg => (Raise (OSError msg), w)
    | None =>
        (Ok tt,
         mkWorld (jobs w) (history w) (job_logs w) (<[path := doc]> (files w))
                 (write_protected w) (now w) (app_log w))
    end.

(* ===================================================================== *)
(** * [app/services/logger.py] *)
(* ===================================================================== *)

(** [add_job_log(job_id, message, level="INFO")]: the row gets the next
    key of the table and the time of its creation. *)
Definition add_job_log (job_id message level : string) : M unit :=
  created_at <- utcnow ;;
  fun w =>
    (Ok tt,
     mkWorld (jobs w) (history w)
             (job_logs w ++
              [JobLog.mk (Some (S (List.length (job_logs w)))) job_id
                         created_at level message])
             (files w) (write_protected w) (now w) (app_log w)).

(* ===================================================================== *)
(** * [app/core/config.py], capability interfaces *)
(* ===================================================================== *)

Record Settings := {
  storage_root : string;
  result_dir_name : string;
  timeline_window : float
}.

(** [path / name]. *)
Definition path_join (path name : string) : string := path +:+ "/" +:+ name.

Definition result_dir (settings : Settings) : string :=
  path_join (storage_root settings) (result_dir_name settings).

(** The four capabilities, each by the method the pipeline calls. *)
Record PipelineComponents := {
  (** [audio_extractor.extract(video_path, output_path)] *)
  audio_extractor : string -> string -> result string;
  (** [transcriber.transcribe(audio_path)] *)
  transcriber : string -> result (list TranscriptSegment.t);
  (** [detector.detect(video_path)] *)
  detector : string -> result (list ObjectDetection.t);
  (** [summariser.summarise(transcript, detections)] *)
  summariser :
    list TranscriptSegment.t -> list ObjectDetection.t -> result string
}.

(** [AudioExtractor.extract]; [ffmpeg] stands for the external tool, giving
    its return code and what it wrote to stderr. *)
Definition AudioExtractor_extract (ffmpeg : string -> string -> Z * string)
    (video_path output_path : string) : result string :=
  let '(returncode, stderr) := ffmpeg video_path output_path in
  if (returncode =? 0)%Z then Ok output_path
  else Raise (RuntimeError ("FFmpeg failed: " +:+ stderr)).

(** The interface classes: every method is [raise NotImplementedError]. *)
Definition Transcriber_transcribe (audio_path : string)
  : result (list TranscriptSegment.t) := Raise NotImplementedError.
Definition ObjectDetector_detect (video_path : string)
  : result (list ObjectDetection.t) := Raise NotImplementedError.
Definition Summariser_summarise (transcript : list TranscriptSegment.t)
    (detections : list ObjectDetection.t) : result string :=
  Raise NotImplementedError.

(** The stubs. *)
Definition StubTranscriber_transcribe (audio_path : string)
  : result (list TranscriptSegment.t) :=
  Ok [TranscriptSegment.mk 0.0 5.0
        "[Transcription unavailable: install Whisper]"].

Definition StubDetector_detect (video_path : string)
  : result (list ObjectDetection.t) := Ok [].

Definition StubSummariser_summarise (transcript : list TranscriptSegment.t)
    (detections : list ObjectDetection.t) : result string :=
  match transcript with
  | first :: _ =>
      Ok ("Summary unavailable. Configure OpenAI credentials for automatic summarisation."
          +:+ " First transcript segment: '"
          +:+ String.substring 0 120 (TranscriptSegment.text first) +:+ "...'")
  | [] =>
      Ok "Summary unavailable. Configure OpenAI credentials for automatic summarisation."
  end.

(* ===================================================================== *)
(** * [app/services/pipeline.py] *)
(* ===================================================================== *)

Section Pipeline.
Context {L : StrLib} {O : SetOrder}.
Variable settings : Settings.
Variable components : PipelineComponents.

Definition _run_pipeline (job_id : string) : M PipelineResult.t :=
  source_path <-
    (job <- session_get job_id ;;
     match job with
     | None => raise (ValueError ("Job " +:+ job_id +:+ " missing"))
     | Some job => ret (Job.source job)
     end) ;;
  let audio_path :=
    path_join (path_join (storage_root settings) "audio") (job_id +:+ ".wav") in
  add_job_log job_id "Extracting audio track" "INFO" ;;;
  audio_file <- call (audio_extractor components source_path audio_path) ;;
  add_job_log job_id "Running speech transcription" "INFO" ;;;
  transcript <- call (transcriber components audio_file) ;;
  add_job_log job_id "Running object detection" "INFO" ;;;
  detections <- call (detector components source_path) ;;
  add_job_log job_id "Building analytics bundle" "INFO" ;;;
  let timeline :=
    build_timeline transcript detections (timeline_window settings) in
  let analytics :=
    build_analytics_bundle transcript detections (timeline_window settings)
                           (Some timeline) in
  add_job_log job_id "Generating summary" "INFO" ;;;
  summary <- call (summariser components transcript detections) ;;
  ret (PipelineResult.mk transcript detections timeline analytics summary).

(** The body of the [try] block of [process]. *)
Definition process_try (job_id : string) : M unit :=
  result <- _run_pipeline job_id ;;
  let result_path := path_join (result_dir settings) (job_id +:+ ".json") in
  write_json result_path result ;;;
  (job <- session_get job_id ;;
   match job with
   | Some job =>
       t <- utcnow ;;
       commit job_id
         (Job.set_updated_at t
            (Job.set_result_path result_path
               (Job.set_status COMPLETED job)))
   | None => ret tt
   end) ;;;
  add_job_log job_id "Pipeline completed successfully" "INFO".

(** The [except Exception as exc] block of [process]. *)
Definition process_except (job_id : string) (exc : exn) : M unit :=
  logger "ERROR" ("Pipeline failed for job " +:+ job_id) ;;;
  (job <- session_get job_id ;;
   match job with
   | Some job =>
       t <- utcnow ;;
       commit job_id
         (Job.set_updated_at t
            (Job.set_error_message (str_exc exc)
               (Job.set_status FAILED job)))
   | None => ret tt
   end) ;;;
  add_job_log job_id ("Pipeline failed: " +:+ str_exc exc) "ERROR".

(** The first block of [process], which is outside the [try]. *)
Definition process_enter (job_id : string) : M unit :=
  logger "INFO" ("Starting pipeline for job " +:+ job_id) ;;;
  (job <- session_get job_id ;;
   match job with
   | None => raise (ValueError ("Job " +:+ job_id +:+ " not found"))
   | Some job =>
       t <- utcnow ;;
       commit job_id (Job.set_updated_at t (Job.set_status PROCESSING job))
   end) ;;;
  add_job_log job_id "Pipeline started" "INFO".

Definition process (job_id : string) : M unit :=
  process_enter job_id ;;;
  try_except (process_try job_id) (process_except job_id).
End Pipeline.

(** [create_job]; [uuid] is the value [uuid.uuid4()] returned. Adding a row
    under a key already in the table fails at the commit. *)
Definition create_job (uuid : string) (input_type : JobInputType)
    (source : string) : M Job.t :=
  let job_id := uuid in
  now <- utcnow ;;
  let job := Job.mk job_id input_type source PENDING now now None None in
  (existing <- session_get job_id ;;
   match existing with
   | Some _ => raise (IntegrityError "UNIQUE constraint failed: job.id")
   | None => commit job_id job
   end) ;;;
  add_job_log job_id ("Job created for " +:+ JobInputType_value input_type)
              "INFO" ;;;
  ret job.

(** The world of a fresh installation. *)
Definition empty_world : World :=
  mkWorld ∅ [] [] ∅ ∅ 0 [].

(* ===================================================================== *)
(** * Vocabulary of the specification *)
(* ===================================================================== *)

(** Counts do not increase along the list. *)
Definition descending {K : Type} (l : list (K * Z)) : Prop :=
  StronglySorted (fun a b => (snd b <= snd a)%Z) l.

(** Strictly increasing in the order of strings. *)
Definition ascending (l : list string) : Prop :=
  StronglySorted (fun a b => String.ltb a b = true) l.

(** The number of detections labelled [label] whose timestamp lies in the
    closed interval [[lo, hi]]. *)
Definition count_in_interval (label : string) (lo hi : float)
    (detections : list ObjectDetection.t) : Z :=
  Z.of_nat
    (List.length
       (List.filter
          (fun d =>
             String.eqb (ObjectDetection.label d) label
             && (lo <=? ObjectDetection.timestamp d)%float
             && (ObjectDetection.timestamp d <=? hi)%float)
          detections)).

(** The entry [build_timeline] makes of one segment. *)
Definition timeline_entry (detections : list ObjectDetection.t)
    (window : float) (segment : TranscriptSegment.t) : TimelineEntry.t :=
  let start := (TranscriptSegment.start segment - window / 2)%float in
  let end_ := (TranscriptSegment.end_ segment + window / 2)%float in
  TimelineEntry.mk
    (TranscriptSegment.start segment)
    (Some (TranscriptSegment.text segment))
    (Counter string_dec
       (List.map ObjectDetection.label
          (List.filter (in_window start end_) detections))).

(** [label] has a positive count in [entry]. *)
Definition appears (label : string) (entry : TimelineEntry.t) : bool :=
  List.existsb (fun '(k, count) => String.eqb k label && (0 <? count)%Z)
               (TimelineEntry.objects entry).

(** The number of entries of [timeline] in which [a] and [b] both have a
    positive count. *)
Definition co_occurrences (a b : string) (timeline : list TimelineEntry.t)
  : Z :=
  Z.of_nat
    (List.length (List.filter (fun e => appears a e && appears b e) timeline)).

(** The pairs in the order in which the loops of [compute_co_occurrence]
    meet them: entry after entry, and within an entry as [combinations]
    yields them. *)
Definition pairs_seen {O : SetOrder} (timeline : list TimelineEntry.t)
  : list (list string) :=
  List.flat_map entry_combos timeline.

(** Some word of [words] is one of [keywords]. *)
Definition intersects (words keywords : list string) : bool :=
  List.existsb (fun w => mem string_dec w keywords) words.

(** The score the specification gives to a text. *)
Definition expected_score {L : StrLib} (text : string) : float :=
  let words := split (lower text) in
  match intersects words positive_keywords,
        intersects words negative_keywords with
  | true, false => 0.6%float
  | false, true => (-0.6)%float
  | true, true | false, false => 0.0%float
  end.

(** The job state machine of the specification. *)
Inductive transition : JobStatus -> JobStatus -> Prop :=
| transition_start : transition PENDING PROCESSING
| transition_complete : transition PROCESSING COMPLETED
| transition_fail : transition PROCESSING FAILED.

(** The invariant of a job record. *)
Definition job_invariant (job : Job.t) : Prop :=
  (Job.result_path job <> None <-> Job.status job = COMPLETED)
  /\ (Job.error_message job <> None <-> Job.status job = FAILED).

(** Log rows of level INFO that belong to [job_id]. *)
Definition info_rows (job_id : string) (rows : list JobLog.t) : Prop :=
  Forall (fun log => JobLog.level log = "INFO"
                     /\ JobLog.job_id log = job_id) rows.

(** The row [process] writes on entry, on success and on failure. *)
Definition started (t : nat) (job : Job.t) : Job.t :=
  Job.set_updated_at t (Job.set_status PROCESSING job).
Definition completed (t : nat) (path : string) (job : Job.t) : Job.t :=
  Job.set_updated_at t
    (Job.set_result_path path (Job.set_status COMPLETED job)).
Definition failed (t : nat) (msg : string) (job : Job.t) : Job.t :=
  Job.set_updated_at t
    (Job.set_error_message msg (Job.set_status FAILED job)).

(* ===================================================================== *)
(** * Concrete installations *)
(* ===================================================================== *)

Definition example_settings : Settings :=
  {| storage_root := "/srv/via/storage";
     result_dir_name := "results";
     timeline_window := 4.0 |}.

(** An FFmpeg that succeeds, and one that does not find its input. *)
Definition ffmpeg_ok (video_path output_path : string) : Z * string :=
  (0%Z, "").
Definition ffmpeg_no_input (video_path output_path : string) : Z * string :=
  (1%Z, video_path +:+ ": No such file or directory").

(** The components of an installation without the optional packages. *)
Definition stub_components : PipelineComponents :=
  {| audio_extractor := AudioExtractor_extract ffmpeg_ok;
     transcriber := StubTranscriber_transcribe;
     detector := StubDetector_detect;
     summariser := StubSummariser_summarise |}.

(** The same with a failing audio extraction. *)
Definition no_input_components : PipelineComponents :=
  {| audio_extractor := AudioExtractor_extract ffmpeg_no_input;
     transcriber := StubTranscriber_transcribe;
     detector := StubDetector_detect;
     summariser := StubSummariser_summarise |}.

(** The same with the interface class [Transcriber] as transcriber. *)
Definition abstract_transcriber_components : PipelineComponents :=
  {| audio_extractor := AudioExtractor_extract ffmpeg_ok;
     transcriber := Transcriber_transcribe;
     detector := StubDetector_detect;
     summariser := StubSummariser_summarise |}.

(** What the job is told when FFmpeg does not find the upload. *)
Definition no_input_message : string :=
  "FFmpeg failed: /srv/via/storage/uploads/a.mp4: No such file or directory".

(** One uploaded video, just submitted. *)
Definition created_job : Job.t :=
  Job.mk "job-1" UPLOAD "/srv/via/storage/uploads/a.mp4" PENDING 0 0
         None None.

Definition created_world : World :=
  snd (create_job "job-1" UPLOAD "/srv/via/storage/uploads/a.mp4"
                  empty_world).

(** The scenario of the specification: one segment, one detection. *)
Definition great_day : list TranscriptSegment.t :=
  [TranscriptSegment.mk 0 2 "it was a great day"].
Definition one_dog : list ObjectDetection.t :=
  [ObjectDetection.mk 1.0 "dog" 0.9 None].
Definition dog_and_cat : list ObjectDetection.t :=
  [ObjectDetection.mk 1.0 "dog" 0.9 None;
   ObjectDetection.mk 1.5 "cat" 0.8 None].

(* ===================================================================== *)
(** * [app/services/logger.py]: reading the log *)
(* ===================================================================== *)

(** One step of a sort by increasing [created_at]: [x] goes before the
    first row that is not older than it. *)
Fixpoint insert_log (x : JobLog.t) (l : list JobLog.t) : list JobLog.t :=
  match l with
  | [] => [x]
  | y :: r =>
      if (JobLog.created_at x <=? JobLog.created_at y)%nat
      then x :: y :: r else y :: insert_log x r
  end.

(** [.order_by(JobLog.created_at.asc())]. The database does not say in
    which order it returns rows of equal time; here they keep the order
    of the table. *)
Definition order_by_created_at (rows : list JobLog.t) : list JobLog.t :=
  List.fold_right insert_log [] rows.

(** [fetch_job_logs(job_id)]. *)
Definition fetch_job_logs (job_id : string) : M (list JobLog.t) :=
  fun w =>
    (Ok (order_by_created_at
           (List.filter (fun log => String.eqb (JobLog.job_id log) job_id)
                        (job_logs w))),
     w).

(* ===================================================================== *)
(** * [app/services/transcription.py]: the Whisper transcriber *)
(* ===================================================================== *)

(** What the Whisper model returns: a dict whose keys may be missing. *)
Module WhisperSegment.
Record t := mk { start : float; end_ : float; text : string }.
End WhisperSegment.

Module WhisperResult.
Record t := mk {
  segments : option (list WhisperSegment.t);
  duration : option float;
  text : option string
}.
End WhisperResult.

(** [d.get(key, default)]. *)
Definition get_or {A : Type} (value : option A) (default : A) : A :=
  match value with Some a => a | None => default end.

(** [WhisperTranscriber.transcribe]; [whisper] stands for the loaded
    model and [strip] for [str.strip]. *)
Definition WhisperTranscriber_transcribe
    (whisper : string -> result WhisperResult.t) (strip : string -> string)
    (audio_path : string) : result (list TranscriptSegment.t) :=
  match whisper audio_path with
  | Raise e => Raise e
  | Ok result =>
      let segments :=
        List.map
          (fun s =>
             TranscriptSegment.mk (WhisperSegment.start s)
                                  (WhisperSegment.end_ s)
                                  (strip (WhisperSegment.text s)))
          (get_or (WhisperResult.segments result) []) in
      let segments :=
        if truthy segments then segments
        else [TranscriptSegment.mk
                0.0 (get_or (WhisperResult.duration result) 0.0%float)
                (get_or (WhisperResult.text result) "")] in
      Ok segments
  end.

(* ===================================================================== *)
(** * [app/api/routes/jobs.py] *)
(* ===================================================================== *)

(** What a route gives back: its response model, or an [HTTPException]. *)
Inductive response (A : Type) :=
| Respond (a : A)
| HTTPException (status_code : Z) (detail : string).
Arguments Respond {A} a.
Arguments HTTPException {A} status_code detail.

Definition JobStatus_eqb (a b : JobStatus) : bool :=
  match a, b with
  | PENDING, PENDING | PROCESSING, PROCESSING
  | COMPLETED, COMPLETED | FAILED, FAILED => true
  | _, _ => false
  end.

(** The truth value of an [Optional[str]]: [None] and the empty string
    are false. *)
Definition str_truthy (value : option string) : bool :=
  match value with
  | Some (String _ _) => true
  | Some EmptyString | None => false
  end.

(** [get_results(job_id)]: it reads the table and the disk and changes
    neither; [PipelineResult.parse_file] reads back the document that
    [json.dump] wrote. *)
Definition get_results (job_id : string) (w : World)
  : response PipelineResult.t :=
  match jobs w !! job_id with
  | None => HTTPException 404 "Results not available"
  | Some job =>
      if negb (JobStatus_eqb (Job.status job) COMPLETED)
         || negb (str_truthy (Job.result_path job))
      then HTTPException 404 "Results not available"
      else
        let result_path := get_or (Job.result_path job) "" in
        match files w !! result_path with
        | None => HTTPException 404 "Result file missing"
        | Some document => Respond document
        end
  end.

(** [job.source = ...]. *)
Definition Job_set_source (source : string) (j : Job.t) : Job.t :=
  Job.mk (Job.id j) (Job.input_type j) source (Job.status j)
         (Job.created_at j) (Job.updated_at j) (Job.error_message j)
         (Job.result_path j).

(** What the download of lines 108 to 124 of [_download_and_process_youtube]
    can meet. *)
Inductive youtube_outcome :=
| pytube_missing
| youtube_raises (e : exn)
| no_stream
| downloaded.

Section YouTube.
Context {L : StrLib} {O : SetOrder}.
Variable settings : Settings.
Variable components : PipelineComponents.
(** [settings.upload_dir_name]. *)
Variable upload_dir_name : string.

Definition upload_dir : string :=
  path_join (storage_root settings) upload_dir_name.

(** The download itself: the import of [pytube], the choice of a stream,
    the download to a temporary file and the move to the upload
    directory. It gives the path of the video. *)
Definition youtube_download (outcome : youtube_outcome) (job_id : string)
  : result string :=
  match outcome with
  | pytube_missing =>
      Raise (RuntimeError
        "The 'pytube' package is required for YouTube downloads. Install via `pip install -e .[full]`.")
  | youtube_raises e => Raise e
  | no_stream => Raise (RuntimeError "No compatible MP4 stream found")
  | downloaded => Ok (path_join upload_dir (job_id +:+ ".mp4"))
  end.

(** The body of the [try] block. *)
Definition youtube_try (outcome : youtube_outcome) (job_id : string)
  : M unit :=
  target_path <- call (youtube_download outcome job_id) ;;
  (job <- session_get job_id ;;
   match job with
   | Some job =>
       t <- utcnow ;;
       commit job_id (Job.set_updated_at t (Job_set_source target_path job))
   | None => ret tt
   end) ;;;
  add_job_log job_id "YouTube video downloaded" "INFO" ;;;
  process settings components job_id.

(** The [except Exception as exc] block, which ends in [raise]. *)
Definition youtube_except (job_id : string) (exc : exn) : M unit :=
  (job <- session_get job_id ;;
   match job with
   | Some job =>
       t <- utcnow ;;
       commit job_id
         (Job.set_updated_at t
            (Job.set_error_message (str_exc exc)
               (Job.set_status FAILED job)))
   | None => ret tt
   end) ;;;
  add_job_log job_id ("YouTube download failed: " +:+ str_exc exc) "ERROR" ;;;
  raise exc.

Definition _download_and_process_youtube (outcome : youtube_outcome)
    (url job_id : string) : M unit :=
  add_job_log job_id "Downloading YouTube video" "INFO" ;;;
  try_except (youtube_try outcome job_id) (youtube_except job_id).
End YouTube.

(* ===================================================================== *)
(** * More vocabulary *)
(* ===================================================================== *)

(** The messages [_run_pipeline] logs, one before each stage. *)
Definition stage_messages : list string :=
  ["Extracting audio track"; "Running speech transcription";
   "Running object detection"; "Building analytics bundle";
   "Generating summary"].

(** Times strictly increase along the rows. *)
Definition chronological (rows : list JobLog.t) : Prop :=
  StronglySorted (fun a b => JobLog.created_at a < JobLog.created_at b) rows.

(** The times of the log rows strictly increase along the table and lie
    behind the clock. *)
Definition log_times_ok (w : World) : Prop :=
  chronological (job_logs w)
  /\ Forall (fun log => JobLog.created_at log < now w) (job_logs w).

(** A computation keeps [log_times_ok]. *)
Definition keeps_log_times {A : Type} (c : M A) : Prop :=
  forall w, log_times_ok w -> log_times_ok (snd (c w)).

(** The rows of one job, in the order of the table. *)
Definition rows_of (job_id : string) (rows : list JobLog.t)
  : list JobLog.t :=
  List.filter (fun log => String.eqb (JobLog.job_id log) job_id) rows.

(* ===================================================================== *)
(** * [app/utils/files.py] *)
(* ===================================================================== *)

(** [str(n)] for an [int]. *)
Definition str_int (n : Z) : string := NilEmpty.string_of_int (Z.to_int n).

(** An uploaded file: its name, if the client gave one, and its bytes. *)
Module UploadFile.
Record t := mk { filename : option string; file : list Byte.byte }.
End UploadFile.

(** [stream.read(size)] on a binary stream: the bytes read (at most
    [size]) and the bytes left. *)
Fixpoint read (size : N) (stream : list Byte.byte)
  : list Byte.byte * list Byte.byte :=
  match stream with
  | [] => ([], [])
  | b :: rest =>
      if (size =? 0)%N then ([], stream)
      else
        let '(chunk, remaining) := read (N.pred size) rest in
        (b :: chunk, remaining)
  end.

Section Files.
(** [settings.max_upload_size_mb] and [settings.upload_dir]. *)
Variable max_upload_size_mb : Z.
Variable default_upload_dir : string.
(** [directory / Path(filename).name], and the sibling
    [path.with_name(f"{stem}_{uuid4().hex}{suffix}")] of a path. *)
Variable target_in : string -> string -> string.
Variable uuid_sibling : string -> string.

Definition too_large : exn :=
  ValueError ("Uploaded file exceeds maximum size of "
              +:+ str_int max_upload_size_mb +:+ " MB").

(** The [while True] loop of [save_upload]: it returns or raises, and
    leaves [buffer], the bytes written. Every turn that does not end the
    loop takes at least one byte off the stream, so a [fuel] above the
    length of the stream is never used up. *)
Fixpoint write_chunks (fuel : nat) (max_bytes total_written : Z)
    (stream buffer : list Byte.byte) : result unit * list Byte.byte :=
  match fuel with
  | O => (Ok tt, buffer)
  | S fuel =>
      let '(chunk, stream) := read (1024 * 1024) stream in
      if negb (truthy chunk) then (Ok tt, buffer)
      else
        let total_written :=
          (total_written + Z.of_nat (List.length chunk))%Z in
        if (max_bytes <? total_written)%Z then (Raise too_large, buffer)
        else write_chunks fuel max_bytes total_written stream
                          (buffer ++ chunk)
  end.

(** [_unique_target(path)] on a disk. *)
Definition _unique_target (disk : gmap string (list Byte.byte))
    (path : string) : string :=
  match disk !! path with
  | None => path
  | Some _ => uuid_sibling path
  end.

(** [save_upload(upload, destination)]: the path written, or the
    exception, and the disk afterwards. The disk is a map from paths to
    contents: directories are not modelled, and opening the target for
    writing is taken to succeed. It creates the file; the [except] block
    removes it again. *)
Definition save_upload (upload : UploadFile.t) (destination : option string)
    (disk : gmap string (list Byte.byte))
  : result string * gmap string (list Byte.byte) :=
  let max_bytes := (max_upload_size_mb * 1024 * 1024)%Z in
  let destination_dir :=
    match destination with Some d => d | None => default_upload_dir end in
  let filename :=
    if str_truthy (UploadFile.filename upload)
    then get_or (UploadFile.filename upload) "" else "upload.mp4" in
  let target := _unique_target disk (target_in destination_dir filename) in
  let stream := UploadFile.file upload in
  match write_chunks (S (List.length stream)) max_bytes 0 stream [] with
  | (Ok _, buffer) => (Ok target, <[target := buffer]> disk)
  | (Raise exc, buffer) =>
      (Raise exc, delete target (<[target := buffer]> disk))
  end.
End Files.

(* ===================================================================== *)
(** * More concrete installations *)
(* ===================================================================== *)

(** The submitted job on a disk where its result file cannot be opened
    for writing. *)
Definition read_only_world : World :=
  mkWorld (jobs created_world) (history created_world)
          (job_logs created_world) (files created_world)
          {[ "/srv/via/storage/results/job-1.json" :=
             "[Errno 13] Permission denied: '/srv/via/storage/results/job-1.json'" ]}
          (now created_world) (app_log created_world).

(** A Whisper model that hears nothing: a text, no segment, no duration. *)
Definition silent_whisper (audio_path : string) : result WhisperResult.t :=
  Ok (WhisperResult.mk (Some []) None (Some "")).

(* ===================================================================== *)
(** * Facts about the builtins *)
(* ===================================================================== *)

Section FirstSeenFacts.
Context {K : Type} (K_dec : forall x y : K, {x = y} + {x <> y}).

Lemma mem_In (x : K) (l : list K) : mem K_dec x l = true <-> In x l.
Proof.
  unfold mem. rewrite List.existsb_exists. split.
  - intros (y & Hy & E). destruct (K_dec x y); [subst; exact Hy | discriminate].
  - intros H. exists x. split; [exact H |].
    destruct (K_dec x x); [reflexivity | contradiction].
Qed.

Lemma mem_false (x : K) (l : list K) : mem K_dec x l = false <-> ~ In x l.
Proof.
  rewrite <- mem_In. destruct (mem K_dec x l); split; intros; congruence.
Qed.

Lemma first_seen_acc_In (seen l : list K) (x : K) :
  In x (first_seen_acc K_dec seen l) <-> In x l /\ ~ In x seen.
Proof.
  revert seen. induction l as [|y r IH]; intros seen; simpl.
  - tauto.
  - destruct (mem K_dec y seen) eqn:E.
    + apply mem_In in E. rewrite IH. split.
      * intros [H1 H2]. tauto.
      * intros [[->|H1] H2]; [contradiction | tauto].
    + apply mem_false in E. simpl. rewrite IH. simpl. split.
      * intros [->|[H1 H2]]; [tauto |]. split; [tauto |]. tauto.
      * intros [[->|H1] H2]; [tauto |].
        destruct (K_dec y x); [tauto |]. right. tauto.
Qed.

Lemma first_seen_In (l : list K) (x : K) :
  In x (first_seen K_dec l) <-> In x l.
Proof. unfold first_seen. rewrite first_seen_acc_In. simpl. tauto. Qed.

Lemma first_seen_acc_NoDup (seen l : list K) :
  List.NoDup (first_seen_acc K_dec seen l).
Proof.
  revert seen. induction l as [|y r IH]; intros seen; simpl.
  - constructor.
  - destruct (mem K_dec y seen); [apply IH |].
    constructor; [| apply IH].
    rewrite first_seen_acc_In. simpl. tauto.
Qed.

Lemma first_seen_NoDup (l : list K) : List.NoDup (first_seen K_dec l).
Proof. apply first_seen_acc_NoDup. Qed.

(** Reading one more element at the end. *)
Lemma first_seen_acc_snoc (seen l : list K) (x : K) :
  first_seen_acc K_dec seen (l ++ [x]) =
  first_seen_acc K_dec seen l ++
  (if mem K_dec x seen || mem K_dec x l then [] else [x]).
Proof.
  revert seen. induction l as [|y r IH]; intros seen; simpl.
  - rewrite orb_false_r. destruct (mem K_dec x seen); reflexivity.
  - destruct (mem K_dec y seen) eqn:E.
    + rewrite IH. f_equal.
      destruct (K_dec x y) as [->|]; [rewrite E |]; reflexivity.
    + rewrite IH. simpl. f_equal. f_equal.
      destruct (K_dec x y) as [->|]; simpl.
      * rewrite orb_true_r. reflexivity.
      * destruct (mem K_dec x seen), (mem K_dec x r); reflexivity.
Qed.

Lemma first_seen_snoc (l : list K) (x : K) :
  first_seen K_dec (l ++ [x]) =
  first_seen K_dec l ++ (if mem K_dec x l then [] else [x]).
Proof. unfold first_seen. rewrite first_seen_acc_snoc. reflexivity. Qed.

Lemma occurrences_snoc (l : list K) (x k : K) :
  occurrences K_dec k (l ++ [x]) =
  (occurrences K_dec k l + (if K_dec x k then 1 else 0))%Z.
Proof.
  unfold occurrences. rewrite List.count_occ_app. simpl.
  destruct (K_dec x k); lia.
Qed.

Lemma occurrences_pos (l : list K) (k : K) :
  (0 < occurrences K_dec k l)%Z <-> In k l.
Proof.
  unfold occurrences. rewrite (List.count_occ_In K_dec). lia.
Qed.

Lemma occurrences_not_In (l : list K) (k : K) :
  ~ In k l -> occurrences K_dec k l = 0%Z.
Proof.
  intros H. unfold occurrences.
  apply (List.count_occ_not_In K_dec) in H. rewrite H. reflexivity.
Qed.
End FirstSeenFacts.

Section CounterFacts.
Context {K : Type} (K_dec : forall x y : K, {x = y} + {x <> y}).

(** Incrementing a key of a table given by a count function [g]. *)
Lemma incr_present (g : K -> Z) (ks : list K) (x : K) :
  List.NoDup ks -> In x ks ->
  incr K_dec x (List.map (fun k => (k, g k)) ks) =
  List.map (fun k => (k, (g k + (if K_dec x k then 1 else 0))%Z)) ks.
Proof.
  induction ks as [|y r IH]; intros ND Hin; simpl; [contradiction |].
  inversion ND as [|? ? Hy ND']; subst.
  destruct (K_dec x y) as [->|Hne].
  - f_equal. apply List.map_ext_in. intros k Hk.
    destruct (K_dec y k) as [->|]; [contradiction |].
    rewrite Z.add_0_r. reflexivity.
  - rewrite Z.add_0_r. f_equal. apply IH; [exact ND' |].
    destruct Hin as [->|H]; [contradiction | exact H].
Qed.

Lemma incr_absent (g : K -> Z) (ks : list K) (x : K) :
  ~ In x ks ->
  incr K_dec x (List.map (fun k => (k, g k)) ks) =
  List.map (fun k => (k, (g k + (if K_dec x k then 1 else 0))%Z)) ks
  ++ [(x, 1%Z)].
Proof.
  induction ks as [|y r IH]; intros Hin; simpl; [reflexivity |].
  destruct (K_dec x y) as [->|Hne]; [simpl in Hin; tauto |].
  rewrite Z.add_0_r. f_equal. apply IH. simpl in Hin. tauto.
Qed.

Lemma Counter_snoc (xs : list K) (x : K) :
  Counter K_dec (xs ++ [x]) = incr K_dec x (Counter K_dec xs).
Proof. unfold Counter. rewrite List.fold_left_app. reflexivity. Qed.

(** [Counter(xs)] holds the distinct elements of [xs] in the order of
    their first appearance, each with its number of occurrences. *)
Lemma Counter_spec (xs : list K) :
  Counter K_dec xs =
  List.map (fun k => (k, occurrences K_dec k xs)) (first_seen K_dec xs).
Proof.
  induction xs as [|x xs IH] using List.rev_ind; [reflexivity |].
  rewrite Counter_snoc, IH, first_seen_snoc.
  destruct (mem K_dec x xs) eqn:E.
  - apply mem_In in E. rewrite List.app_nil_r.
    rewrite incr_present;
      [| apply first_seen_NoDup | apply first_seen_In; exact E].
    apply List.map_ext. intros k. rewrite occurrences_snoc. reflexivity.
  - apply mem_false in E.
    rewrite incr_absent; [| rewrite first_seen_In; exact E].
    rewrite List.map_app. simpl. f_equal.
    + apply List.map_ext. intros k. rewrite occurrences_snoc. reflexivity.
    + rewrite occurrences_snoc, (occurrences_not_In K_dec xs x E).
      destruct (K_dec x x); [reflexivity | contradiction].
Qed.

Lemma Counter_keys (xs : list K) :
  List.map fst (Counter K_dec xs) = first_seen K_dec xs.
Proof.
  rewrite Counter_spec, List.map_map. simpl. apply List.map_id.
Qed.

Lemma Counter_In (xs : list K) (k : K) (n : Z) :
  In (k, n) (Counter K_dec xs) <-> In k xs /\ n = occurrences K_dec k xs.
Proof.
  rewrite Counter_spec, List.in_map_iff. split.
  - intros (k' & E & Hk). inversion E; subst.
    apply first_seen_In in Hk. tauto.
  - intros [Hk ->]. exists k. split; [reflexivity |].
    apply first_seen_In. exact Hk.
Qed.

Lemma sum_incr (x : K) (c : list (K * Z)) :
  List.fold_right Z.add 0%Z (List.map snd (incr K_dec x c)) =
  (List.fold_right Z.add 0%Z (List.map snd c) + 1)%Z.
Proof.
  induction c as [|[k n] r IH]; simpl; [reflexivity |].
  destruct (K_dec x k); simpl; [lia | rewrite IH; lia].
Qed.

Lemma Counter_sum (xs : list K) :
  List.fold_right Z.add 0%Z (List.map snd (Counter K_dec xs)) =
  Z.of_nat (List.length xs).
Proof.
  induction xs as [|x xs IH] using List.rev_ind; [reflexivity |].
  rewrite Counter_snoc, sum_incr, IH, List.length_app. simpl. lia.
Qed.
End CounterFacts.

Section PrecedesFacts.
Context {A : Type}.

Lemma precedes_cons (z x y : A) (l : list A) :
  precedes x y l -> precedes x y (z :: l).
Proof.
  intros (l1 & l2 & l3 & ->). exists (z :: l1), l2, l3. reflexivity.
Qed.

Lemma precedes_head (x y : A) (l : list A) :
  In y l -> precedes x y (x :: l).
Proof.
  intros H. apply List.in_split in H as (l2 & l3 & ->).
  exists [], l2, l3. reflexivity.
Qed.

Lemma precedes_cons_inv (z x y : A) (l : list A) :
  precedes x y (z :: l) -> (z = x /\ In y l) \/ precedes x y l.
Proof.
  intros (l1 & l2 & l3 & E). destruct l1 as [|a l1]; simpl in E.
  - inversion E; subst. left. split; [reflexivity |].
    apply List.in_or_app. right. left. reflexivity.
  - inversion E; subst. right. exists l1, l2, l3. reflexivity.
Qed.

Lemma precedes_In (x y : A) (l : list A) :
  precedes x y l -> In x l /\ In y l.
Proof.
  intros (l1 & l2 & l3 & ->). split.
  - apply List.in_or_app. right. left. reflexivity.
  - apply List.in_or_app. right. right.
    apply List.in_or_app. right. left. reflexivity.
Qed.

Lemma precedes_filter (p : A -> bool) (x y : A) (l : list A) :
  precedes x y l -> p x = true -> p y = true ->
  precedes x y (List.filter p l).
Proof.
  intros (l1 & l2 & l3 & ->) Hx Hy.
  exists (List.filter p l1), (List.filter p l2), (List.filter p l3).
  rewrite List.filter_app. simpl. rewrite Hx.
  rewrite List.filter_app. simpl. rewrite Hy. reflexivity.
Qed.

Lemma precedes_filter_inv (p : A -> bool) (x y : A) (l : list A) :
  precedes x y (List.filter p l) -> precedes x y l.
Proof.
  induction l as [|z l IH]; simpl; intros H.
  - destruct H as (l1 & l2 & l3 & E). destruct l1; discriminate.
  - destruct (p z).
    + apply precedes_cons_inv in H as [[-> Hin]|H].
      * apply precedes_head. apply List.filter_In in Hin. tauto.
      * apply precedes_cons, IH, H.
    + apply precedes_cons, IH, H.
Qed.

(** Of two different members of a list, one stands before the other. *)
Lemma precedes_total (x y : A) (l : list A) :
  In x l -> In y l -> x <> y -> precedes x y l \/ precedes y x l.
Proof.
  induction l as [|z l IH]; intros Hx Hy Hne; [contradiction |].
  destruct Hx as [->|Hx], Hy as [->|Hy].
  - contradiction.
  - left. apply precedes_head. exact Hy.
  - right. apply precedes_head. exact Hx.
  - destruct (IH Hx Hy Hne); [left | right]; apply precedes_cons; assumption.
Qed.

Lemma precedes_NoDup_neq (x y : A) (l : list A) :
  List.NoDup l -> precedes x y l -> x <> y.
Proof.
  intros ND (l1 & l2 & l3 & ->) ->.
  apply List.NoDup_remove_2 in ND. apply ND.
  apply List.in_or_app. right.
  apply List.in_or_app. right. left. reflexivity.
Qed.
End PrecedesFacts.

Section PrecedesMap.
Context {A B : Type}.

Lemma precedes_map (f : A -> B) (x y : A) (l : list A) :
  precedes x y l -> precedes (f x) (f y) (List.map f l).
Proof.
  intros (l1 & l2 & l3 & ->).
  exists (List.map f l1), (List.map f l2), (List.map f l3).
  rewrite List.map_app. simpl. rewrite List.map_app. reflexivity.
Qed.

Lemma precedes_map_inv (f : A -> B) (u v : B) (l : list A) :
  precedes u v (List.map f l) ->
  exists x y, f x = u /\ f y = v /\ precedes x y l.
Proof.
  induction l as [|z l IH]; intros H.
  - destruct H as (l1 & l2 & l3 & E). destruct l1; discriminate.
  - simpl in H. apply precedes_cons_inv in H as [[E Hin]|H].
    + apply List.in_map_iff in Hin as (y & Ey & Hy).
      exists z, y. split; [exact E |]. split; [exact Ey |].
      apply precedes_head. exact Hy.
    + destruct (IH H) as (x & y & Ex & Ey & P).
      exists x, y. split; [exact Ex |]. split; [exact Ey |].
      apply precedes_cons. exact P.
Qed.
End PrecedesMap.

Section MostCommonFacts.
Context {K : Type}.

Lemma insert_desc_perm (x : K * Z) (l : list (K * Z)) :
  Permutation (insert_desc x l) (x :: l).
Proof.
  induction l as [|y r IH]; simpl; [apply Permutation_refl |].
  destruct (snd x <? snd y)%Z; [| apply Permutation_refl].
  eapply Permutation_trans; [apply perm_skip, IH | apply perm_swap].
Qed.

Lemma most_common_perm (c : list (K * Z)) :
  Permutation (most_common c) c.
Proof.
  induction c as [|x c IH]; simpl; [constructor |].
  eapply Permutation_trans; [apply insert_desc_perm |].
  apply perm_skip, IH.
Qed.

Lemma insert_desc_descending (x : K * Z) (l : list (K * Z)) :
  descending l -> descending (insert_desc x l).
Proof.
  unfold descending. induction l as [|y r IH]; intros S; simpl.
  - constructor; constructor.
  - apply StronglySorted_inv in S as [Sr Fy].
    destruct (snd x <? snd y)%Z eqn:E.
    + apply Z.ltb_lt in E. constructor; [apply IH, Sr |].
      apply List.Forall_forall. intros z Hz.
      apply (Permutation_in _ (insert_desc_perm x r)) in Hz.
      destruct Hz as [<-|Hz]; [lia |].
      rewrite List.Forall_forall in Fy. apply Fy, Hz.
    + apply Z.ltb_ge in E. constructor.
      * constructor; assumption.
      * constructor; [exact E |].
        apply List.Forall_forall. intros z Hz.
        rewrite List.Forall_forall in Fy. specialize (Fy z Hz). lia.
Qed.

Lemma most_common_descending (c : list (K * Z)) :
  descending (most_common c).
Proof.
  induction c as [|x c IH]; simpl; [constructor |].
  apply insert_desc_descending, IH.
Qed.

(** Stability: the items of any one count keep their order. *)
Lemma insert_desc_stable (n : Z) (x : K * Z) (l : list (K * Z)) :
  List.filter (fun e => (snd e =? n)%Z) (insert_desc x l) =
  List.filter (fun e => (snd e =? n)%Z) (x :: l).
Proof.
  induction l as [|y r IH]; simpl; [reflexivity |].
  destruct (snd x <? snd y)%Z eqn:E; [| reflexivity].
  apply Z.ltb_lt in E. simpl. simpl in IH. rewrite IH.
  destruct (snd x =? n)%Z eqn:Ex, (snd y =? n)%Z eqn:Ey; try reflexivity.
  apply Z.eqb_eq in Ex, Ey. lia.
Qed.

Lemma most_common_stable (n : Z) (c : list (K * Z)) :
  List.filter (fun e => (snd e =? n)%Z) (most_common c) =
  List.filter (fun e => (snd e =? n)%Z) c.
Proof.
  induction c as [|x c IH]; simpl; [reflexivity |].
  rewrite insert_desc_stable. simpl. rewrite IH. reflexivity.
Qed.

Lemma most_common_ties (c : list (K * Z)) (a b : K * Z) :
  precedes a b (most_common c) -> snd a = snd b -> precedes a b c.
Proof.
  intros P E.
  apply (precedes_filter_inv (fun e => (snd e =? snd a)%Z)).
  rewrite <- most_common_stable.
  apply precedes_filter; [exact P | apply Z.eqb_refl |].
  rewrite E. apply Z.eqb_refl.
Qed.

Lemma sum_counts_perm (l1 l2 : list (K * Z)) :
  Permutation l1 l2 ->
  List.fold_right Z.add 0%Z (List.map snd l1) =
  List.fold_right Z.add 0%Z (List.map snd l2).
Proof.
  induction 1; simpl; lia.
Qed.
End MostCommonFacts.

(** ** The order of strings *)

Lemma compare_as_OT (a b : string) :
  String.compare a b = String_as_OT.compare a b.
Proof.
  revert b. induction a as [|x a IH]; intros [|y b]; simpl; try reflexivity;
    rewrite IH; reflexivity.
Qed.

Lemma ltb_lt (a b : string) :
  String.ltb a b = true <-> String_as_OT.lt a b.
Proof.
  unfold String.ltb, String_as_OT.lt. rewrite compare_as_OT.
  destruct (String_as_OT.compare a b); split; congruence.
Qed.

Lemma ltb_irrefl (a : string) : String.ltb a a = false.
Proof.
  destruct (String.ltb a a) eqn:E; [| reflexivity].
  apply ltb_lt in E. exfalso. exact (StrictOrder_Irreflexive a E).
Qed.

Lemma ltb_trans (a b c : string) :
  String.ltb a b = true -> String.ltb b c = true -> String.ltb a c = true.
Proof.
  rewrite !ltb_lt. apply StrictOrder_Transitive.
Qed.

Lemma ltb_asym (a b : string) :
  String.ltb a b = true -> String.ltb b a = false.
Proof.
  intros H. destruct (String.ltb b a) eqn:E; [| reflexivity].
  pose proof (ltb_trans _ _ _ H E) as C. rewrite ltb_irrefl in C. discriminate.
Qed.

Lemma ltb_trichotomy (a b : string) :
  String.ltb a b = false -> String.ltb b a = false -> a = b.
Proof.
  unfold String.ltb. rewrite (String.compare_antisym b a).
  destruct (String.compare a b) eqn:E; simpl; try discriminate.
  intros _ _. apply String.compare_eq_iff. exact E.
Qed.

(** ** [sorted] *)

Lemma insert_str_perm (x : string) (l : list string) :
  Permutation (insert_str x l) (x :: l).
Proof.
  induction l as [|y r IH]; simpl; [apply Permutation_refl |].
  destruct (String.ltb y x); [| apply Permutation_refl].
  eapply Permutation_trans; [apply perm_skip, IH | apply perm_swap].
Qed.

Lemma sorted_perm (l : list string) : Permutation (sorted l) l.
Proof.
  induction l as [|x l IH]; simpl; [constructor |].
  eapply Permutation_trans; [apply insert_str_perm | apply perm_skip, IH].
Qed.

Lemma sorted_In (l : list string) (x : string) : In x (sorted l) <-> In x l.
Proof.
  split; apply Permutation_in;
    [apply sorted_perm | apply Permutation_sym, sorted_perm].
Qed.

Lemma insert_str_comm (x y : string) (l : list string) :
  insert_str x (insert_str y l) = insert_str y (insert_str x l).
Proof.
  induction l as [|z r IH]; simpl.
  - destruct (String.ltb y x) eqn:Eyx, (String.ltb x y) eqn:Exy;
      try reflexivity.
    + rewrite (ltb_asym _ _ Eyx) in Exy. discriminate.
    + rewrite (ltb_trichotomy _ _ Exy Eyx). reflexivity.
  - destruct (String.ltb z y) eqn:Ezy, (String.ltb z x) eqn:Ezx; simpl;
      rewrite ?Ezy, ?Ezx.
    + rewrite IH. reflexivity.
    + (* x <= z < y *)
      destruct (String.ltb x y) eqn:Exy; [reflexivity |].
      destruct (String.ltb y x) eqn:Eyx.
      * rewrite (ltb_trans _ _ _ Ezy Eyx) in Ezx. discriminate.
      * pose proof (ltb_trichotomy _ _ Exy Eyx) as ->. congruence.
    + (* y <= z < x *)
      destruct (String.ltb y x) eqn:Eyx; [reflexivity |].
      destruct (String.ltb x y) eqn:Exy.
      * rewrite (ltb_trans _ _ _ Ezx Exy) in Ezy. discriminate.
      * pose proof (ltb_trichotomy _ _ Exy Eyx) as ->. congruence.
    + destruct (String.ltb y x) eqn:Eyx, (String.ltb x y) eqn:Exy;
        simpl; rewrite ?Ezy, ?Ezx; try reflexivity.
      * rewrite (ltb_asym _ _ Eyx) in Exy. discriminate.
      * rewrite (ltb_trichotomy _ _ Exy Eyx). reflexivity.
Qed.

(** The result of [sorted] depends on the elements only, not on the order
    in which they are given. *)
Lemma sorted_of_perm (l1 l2 : list string) :
  Permutation l1 l2 -> sorted l1 = sorted l2.
Proof.
  induction 1; simpl.
  - reflexivity.
  - rewrite IHPermutation. reflexivity.
  - apply insert_str_comm.
  - congruence.
Qed.

Lemma insert_str_ascending (x : string) (l : list string) :
  ascending l -> ~ In x l -> ascending (insert_str x l).
Proof.
  unfold ascending. induction l as [|y r IH]; intros S Hx; simpl.
  - constructor; constructor.
  - apply StronglySorted_inv in S as [Sr Fy].
    rewrite List.Forall_forall in Fy. simpl in Hx.
    destruct (String.ltb y x) eqn:E.
    + constructor; [apply IH; tauto |].
      apply List.Forall_forall. intros z Hz.
      apply (Permutation_in _ (insert_str_perm x r)) in Hz.
      destruct Hz as [<-|Hz]; [exact E | apply Fy, Hz].
    + assert (Exy : String.ltb x y = true).
      { destruct (String.ltb x y) eqn:Exy; [reflexivity |].
        exfalso. apply Hx. left. symmetry. apply ltb_trichotomy; assumption. }
      constructor.
      * constructor; [exact Sr | apply List.Forall_forall; exact Fy].
      * constructor; [exact Exy |].
        apply List.Forall_forall. intros z Hz.
        apply (ltb_trans _ _ _ Exy). apply Fy, Hz.
Qed.

Lemma sorted_ascending (l : list string) :
  List.NoDup l -> ascending (sorted l).
Proof.
  induction 1 as [|x l Hx ND IH]; simpl; [constructor |].
  apply insert_str_ascending; [exact IH |].
  rewrite sorted_In. exact Hx.
Qed.

Lemma ascending_middle (l1 l2 : list string) (x y : string) :
  ascending (l1 ++ x :: l2) -> In y l2 -> String.ltb x y = true.
Proof.
  unfold ascending. induction l1 as [|z l1 IH]; simpl; intros S Hy.
  - apply StronglySorted_inv in S as [_ F].
    rewrite List.Forall_forall in F. apply F, Hy.
  - apply StronglySorted_inv in S as [S _]. apply IH; assumption.
Qed.

Lemma ascending_precedes (l : list string) (a b : string) :
  ascending l ->
  (precedes a b l <-> In a l /\ In b l /\ String.ltb a b = true).
Proof.
  intros S. split.
  - intros P. destruct (precedes_In _ _ _ P) as [Ha Hb].
    split; [exact Ha |]. split; [exact Hb |].
    destruct P as (l1 & l2 & l3 & ->).
    apply (ascending_middle _ _ _ _ S).
    apply List.in_or_app. right. left. reflexivity.
  - intros (Ha & Hb & E).
    assert (Hne : a <> b).
    { intros ->. rewrite ltb_irrefl in E. discriminate. }
    destruct (precedes_total _ _ _ Ha Hb Hne) as [P|P]; [exact P |].
    exfalso. destruct P as (l1 & l2 & l3 & ->).
    assert (E' : String.ltb b a = true).
    { apply (ascending_middle _ _ _ _ S).
      apply List.in_or_app. right. left. reflexivity. }
    rewrite (ltb_asym _ _ E) in E'. discriminate.
Qed.

Lemma ascending_NoDup (l : list string) : ascending l -> List.NoDup l.
Proof.
  unfold ascending. induction 1 as [|x l S IH F]; constructor; [| exact IH].
  intros Hx. rewrite List.Forall_forall in F.
  specialize (F x Hx). rewrite ltb_irrefl in F. discriminate.
Qed.

(** ** [combinations] *)

Section CombinationsFacts.
Context {A : Type}.

Lemma combinations_length (l : list A) (r : nat) (c : list A) :
  In c (combinations l r) -> List.length c = r.
Proof.
  revert r c. induction l as [|x t IH]; intros [|r] c; simpl.
  - intros [<-|[]]. reflexivity.
  - intros [].
  - intros [<-|[]]. reflexivity.
  - intros H. apply List.in_app_or in H as [H|H].
    + apply List.in_map_iff in H as (c' & <- & Hc'). simpl.
      f_equal. apply IH, Hc'.
    + apply IH, H.
Qed.

Lemma combinations_1 (l : list A) :
  combinations l 1 = List.map (fun x => [x]) l.
Proof.
  induction l as [|x t IH]; simpl; [reflexivity |].
  rewrite IH. destruct t; reflexivity.
Qed.

Lemma combinations_2_cons (x : A) (t : list A) :
  combinations (x :: t) 2 =
  List.map (fun y => [x; y]) t ++ combinations t 2.
Proof.
  simpl. f_equal. rewrite combinations_1, List.map_map. reflexivity.
Qed.

(** The pairs of [combinations l 2] are the [[a; b]] with [a] before [b]
    in [l]. *)
Lemma combinations_2_In (l : list A) (c : list A) :
  In c (combinations l 2) <-> exists a b, c = [a; b] /\ precedes a b l.
Proof.
  induction l as [|x t IH].
  - simpl. split; [intros [] |].
    intros (a & b & _ & (l1 & l2 & l3 & E)). destruct l1; discriminate.
  - rewrite combinations_2_cons, List.in_app_iff, List.in_map_iff, IH. split.
    + intros [(y & <- & Hy)|(a & b & -> & P)].
      * exists x, y. split; [reflexivity | apply precedes_head, Hy].
      * exists a, b. split; [reflexivity | apply precedes_cons, P].
    + intros (a & b & -> & P).
      apply precedes_cons_inv in P as [[-> Hb]|P].
      * left. exists b. split; [reflexivity | exact Hb].
      * right. exists a, b. split; [reflexivity | exact P].
Qed.

Lemma combinations_2_NoDup (l : list A) :
  List.NoDup l -> List.NoDup (combinations l 2).
Proof.
  induction 1 as [|x t Hx ND IH]; [constructor |].
  rewrite combinations_2_cons. apply List.NoDup_app.
  - apply List.NoDup_map_NoDup_ForallPairs; [| exact ND].
    intros a b _ _ E. inversion E. reflexivity.
  - exact IH.
  - intros c H1 H2.
    apply List.in_map_iff in H1 as (y & <- & _).
    apply combinations_2_In in H2 as (a & b & E & P).
    inversion E; subst. apply Hx. apply (precedes_In _ _ _ P).
Qed.
End CombinationsFacts.

(** ** Loops that append one item per element *)

Lemma fold_left_snoc {A B : Type} (f : A -> B) (l : list A) (init : list B) :
  List.fold_left (fun acc x => acc ++ [f x]) l init = init ++ List.map f l.
Proof.
  revert init. induction l as [|x l IH]; intros init; simpl.
  - rewrite List.app_nil_r. reflexivity.
  - rewrite IH, <- List.app_assoc. reflexivity.
Qed.

Lemma Forall2_map_r {A B : Type} (R : A -> B -> Prop) (f : A -> B)
    (l : list A) :
  (forall x, In x l -> R x (f x)) -> Forall2 R l (List.map f l).
Proof.
  induction l as [|x l IH]; intros H; simpl; constructor.
  - apply H. left. reflexivity.
  - apply IH. intros y Hy. apply H. right. exact Hy.
Qed.

Lemma StronglySorted_map {A B : Type} (R : B -> B -> Prop) (f : A -> B)
    (l : list A) :
  StronglySorted (fun a b => R (f a) (f b)) l ->
  StronglySorted R (List.map f l).
Proof.
  induction 1 as [|x l S IH F]; simpl; constructor; [exact IH |].
  apply List.Forall_map. exact F.
Qed.

Lemma dict_get_table (g : string -> Z) (ks : list string) (k : string) :
  dict_get (List.map (fun k => (k, g k)) ks) k =
  if mem string_dec k ks then Some (g k) else None.
Proof.
  induction ks as [|y r IH]; simpl; [reflexivity |].
  destruct (String.eqb_spec y k) as [->|Hne].
  - destruct (string_dec k k); [reflexivity | contradiction].
  - destruct (string_dec k y) as [->|]; [contradiction |]. exact IH.
Qed.

(** ** Counting, then sorting by count *)

Section RankingFacts.
Context {K : Type} (K_dec : forall x y : K, {x = y} + {x <> y}).

Lemma ranking_In (xs : list K) (k : K) (n : Z) :
  In (k, n) (most_common (Counter K_dec xs)) <->
  In k xs /\ n = occurrences K_dec k xs.
Proof.
  rewrite <- Counter_In. split; apply Permutation_in;
    [apply most_common_perm | apply Permutation_sym, most_common_perm].
Qed.

Lemma ranking_keys_NoDup (xs : list K) :
  List.NoDup (List.map fst (most_common (Counter K_dec xs))).
Proof.
  eapply Permutation_NoDup.
  - apply Permutation_map, Permutation_sym, most_common_perm.
  - rewrite Counter_keys. apply first_seen_NoDup.
Qed.

Lemma ranking_ties (xs : list K) (a b : K * Z) :
  precedes a b (most_common (Counter K_dec xs)) -> snd a = snd b ->
  precedes (fst a) (fst b) (first_seen K_dec xs).
Proof.
  intros P E. rewrite <- Counter_keys.
  apply precedes_map, most_common_ties; assumption.
Qed.

Lemma ranking_sum (xs : list K) :
  List.fold_right Z.add 0%Z
    (List.map snd (most_common (Counter K_dec xs))) =
  Z.of_nat (List.length xs).
Proof.
  rewrite (sum_counts_perm _ _ (most_common_perm _)). apply Counter_sum.
Qed.
End RankingFacts.

(* ===================================================================== *)
(** * Properties of the analytics engine *)
(* ===================================================================== *)

(** ** [build_timeline] *)

Lemma build_timeline_map (transcript : list TranscriptSegment.t)
    (detections : list ObjectDetection.t) (window : float) :
  build_timeline transcript detections window =
  List.map (timeline_entry detections window) transcript.
Proof.
  unfold build_timeline.
  exact (fold_left_snoc (timeline_entry detections window) transcript []).
Qed.

Lemma occurrences_in_window (label : string) (lo hi : float)
    (detections : list ObjectDetection.t) :
  occurrences string_dec label
    (List.map ObjectDetection.label
       (List.filter (in_window lo hi) detections)) =
  count_in_interval label lo hi detections.
Proof.
  unfold occurrences, count_in_interval. f_equal.
  induction detections as [|d ds IH]; simpl; [reflexivity |].
  unfold in_window at 1.
  destruct (String.eqb_spec (ObjectDetection.label d) label) as [E|E];
    destruct (lo <=? ObjectDetection.timestamp d)%float;
    destruct (ObjectDetection.timestamp d <=? hi)%float; simpl;
    try exact IH.
  - destruct (string_dec (ObjectDetection.label d) label);
      [rewrite IH; reflexivity | contradiction].
  - destruct (string_dec (ObjectDetection.label d) label);
      [contradiction | exact IH].
Qed.

(** C2. [build_timeline] gives one entry per transcript segment, in
    transcript order; the entry of a segment is anchored at the segment's
    start and carries its text; its histogram has one key per label, and
    under each label the number of detections with that label whose
    timestamp lies in [[start - window/2, end + window/2]] (bounds
    included); a label with no such detection has no key, so a segment
    with no detection in range has the empty histogram. *)
Theorem build_timeline_spec (transcript : list TranscriptSegment.t)
    (detections : list ObjectDetection.t) (window : float) :
  Forall2
    (fun segment entry =>
       let lo := (TranscriptSegment.start segment - window / 2)%float in
       let hi := (TranscriptSegment.end_ segment + window / 2)%float in
       TimelineEntry.timestamp entry = TranscriptSegment.start segment
       /\ TimelineEntry.transcript entry = Some (TranscriptSegment.text segment)
       /\ List.NoDup (List.map fst (TimelineEntry.objects entry))
       /\ (forall label,
             dict_get (TimelineEntry.objects entry) label =
             let n := count_in_interval label lo hi detections in
             if (n =? 0)%Z then None else Some n)
       /\ ((forall d, In d detections ->
              (lo <=? ObjectDetection.timestamp d)%float
              && (ObjectDetection.timestamp d <=? hi)%float = false) ->
           TimelineEntry.objects entry = []))
    transcript (build_timeline transcript detections window).
Proof.
  rewrite build_timeline_map. apply Forall2_map_r. intros segment _.
  cbv zeta. unfold timeline_entry. simpl.
  split; [reflexivity |]. split; [reflexivity |]. split; [| split].
  - rewrite Counter_keys. apply first_seen_NoDup.
  - intros label. rewrite Counter_spec, dict_get_table.
    rewrite occurrences_in_window.
    destruct (mem string_dec label _) eqn:E.
    + apply mem_In, first_seen_In, (occurrences_pos string_dec) in E.
      rewrite occurrences_in_window in E.
      destruct (Z.eqb_spec (count_in_interval label
        (TranscriptSegment.start segment - window / 2)
        (TranscriptSegment.end_ segment + window / 2) detections) 0);
        [lia | reflexivity].
    + apply mem_false in E. rewrite first_seen_In in E.
      apply (occurrences_not_In string_dec) in E.
      rewrite occurrences_in_window in E. rewrite E. reflexivity.
  - intros H.
    replace (List.filter _ detections) with (@nil ObjectDetection.t);
      [reflexivity |].
    symmetry. induction detections as [|d ds IH]; simpl; [reflexivity |].
    unfold in_window at 1. rewrite (H d (or_introl eq_refl)). apply IH.
    intros d' Hd'. apply H. right. exact Hd'.
Qed.

(** ** [compute_object_frequency] *)

Lemma object_frequency_labels (c : list (string * Z)) :
  List.map ObjectFrequency.label
    (List.map (fun '(label, count) => ObjectFrequency.mk label count) c) =
  List.map fst c.
Proof.
  rewrite List.map_map. apply List.map_ext. intros [l n]. reflexivity.
Qed.

Lemma object_frequency_counts (c : list (string * Z)) :
  List.map ObjectFrequency.count
    (List.map (fun '(label, count) => ObjectFrequency.mk label count) c) =
  List.map snd c.
Proof.
  rewrite List.map_map. apply List.map_ext. intros [l n]. reflexivity.
Qed.

(** C4. [compute_object_frequency] returns one entry per distinct label,
    with the number of occurrences of the label in the whole input; the
    counts do not increase along the output; entries with equal counts
    stand in the order in which their labels first appear in the input;
    the counts add up to the number of detections. *)
Theorem compute_object_frequency_spec (detections : list ObjectDetection.t) :
  let labels := List.map ObjectDetection.label detections in
  let out := compute_object_frequency detections in
  List.NoDup (List.map ObjectFrequency.label out)
  /\ (forall l, In l (List.map ObjectFrequency.label out) <-> In l labels)
  /\ (forall e, In e out ->
        ObjectFrequency.count e =
        occurrences string_dec (ObjectFrequency.label e) labels)
  /\ StronglySorted
       (fun a b => (ObjectFrequency.count b <= ObjectFrequency.count a)%Z) out
  /\ (forall a b, precedes a b out ->
        ObjectFrequency.count a = ObjectFrequency.count b ->
        precedes (ObjectFrequency.label a) (ObjectFrequency.label b)
                 (first_seen string_dec labels))
  /\ List.fold_right Z.add 0%Z (List.map ObjectFrequency.count out) =
     Z.of_nat (List.length detections).
Proof.
  cbv zeta. unfold compute_object_frequency.
  set (labels := List.map ObjectDetection.label detections).
  set (mk := fun '(label, count) => ObjectFrequency.mk label count).
  split; [| split; [| split; [| split; [| split]]]].
  - rewrite object_frequency_labels. apply ranking_keys_NoDup.
  - intros l. rewrite object_frequency_labels, List.in_map_iff. split.
    + intros ([k n] & <- & H). apply ranking_In in H. tauto.
    + intros H. exists (l, occurrences string_dec l labels).
      split; [reflexivity |]. apply ranking_In. tauto.
  - intros e He. apply List.in_map_iff in He as ([k n] & <- & H).
    apply ranking_In in H. simpl. tauto.
  - apply StronglySorted_map.
    eapply StronglySorted_ind with
      (P := StronglySorted (fun a b : string * Z =>
              (ObjectFrequency.count (mk b)
               <= ObjectFrequency.count (mk a))%Z));
      [constructor | |
       apply (most_common_descending (Counter string_dec labels))].
    intros [k n] l S IH F. constructor; [exact IH |].
    eapply List.Forall_impl; [| exact F]. intros [k' n'] H. exact H.
  - intros a b P E.
    apply precedes_map_inv in P as ([k n] & [k' n'] & <- & <- & P).
    simpl in *. exact (ranking_ties string_dec labels _ _ P E).
  - rewrite object_frequency_counts.
    unfold labels. rewrite ranking_sum. rewrite List.length_map. reflexivity.
Qed.

(** ** [compute_co_occurrence] *)

Section CoOccurrenceFacts.
Context {O : SetOrder}.

Lemma set_elements_In (l : list string) (x : string) :
  In x (set_elements l) <-> In x l.
Proof.
  rewrite <- (first_seen_In string_dec l x).
  split; apply Permutation_in;
    [apply set_elements_perm | apply Permutation_sym, set_elements_perm].
Qed.

Lemma set_elements_NoDup (l : list string) : List.NoDup (set_elements l).
Proof.
  eapply Permutation_NoDup;
    [apply Permutation_sym, set_elements_perm | apply first_seen_NoDup].
Qed.

Lemma positive_labels_In (entry : TimelineEntry.t) (a : string) :
  In a (positive_labels entry) <-> appears a entry = true.
Proof.
  unfold positive_labels, appears.
  rewrite List.in_map_iff, List.existsb_exists. split.
  - intros ([k n] & <- & H). apply List.filter_In in H as [H1 H2].
    exists (k, n). split; [exact H1 |]. simpl.
    rewrite String.eqb_refl, H2. reflexivity.
  - intros ([k n] & H1 & H2). apply andb_true_iff in H2 as [E H2].
    apply String.eqb_eq in E. subst k.
    exists (a, n). split; [reflexivity |].
    apply List.filter_In. split; assumption.
Qed.

Lemma entry_labels_ascending (entry : TimelineEntry.t) :
  ascending (sorted (set_elements (positive_labels entry))).
Proof. apply sorted_ascending, set_elements_NoDup. Qed.

(** The pairs of one entry: two labels that both appear, the smaller
    first. *)
Lemma entry_combos_In (entry : TimelineEntry.t) (c : list string) :
  In c (entry_combos entry) <->
  exists a b, c = [a; b] /\ String.ltb a b = true
              /\ appears a entry = true /\ appears b entry = true.
Proof.
  unfold entry_combos. rewrite combinations_2_In. split.
  - intros (a & b & -> & P). exists a, b. split; [reflexivity |].
    apply (ascending_precedes _ _ _ (entry_labels_ascending entry)) in P.
    rewrite !sorted_In, !set_elements_In, !positive_labels_In in P. tauto.
  - intros (a & b & -> & E & Ha & Hb). exists a, b. split; [reflexivity |].
    apply (ascending_precedes _ _ _ (entry_labels_ascending entry)).
    rewrite !sorted_In, !set_elements_In, !positive_labels_In. tauto.
Qed.

Lemma entry_combos_NoDup (entry : TimelineEntry.t) :
  List.NoDup (entry_combos entry).
Proof.
  apply combinations_2_NoDup, ascending_NoDup, entry_labels_ascending.
Qed.

Lemma entry_combos_count (entry : TimelineEntry.t) (a b : string) :
  String.ltb a b = true ->
  List.count_occ list_string_dec (entry_combos entry) [a; b] =
  if appears a entry && appears b entry then 1 else 0.
Proof.
  intros E. destruct (appears a entry && appears b entry) eqn:H.
  - apply andb_true_iff in H as [Ha Hb].
    apply (proj1 (List.NoDup_count_occ' list_string_dec _)
                 (entry_combos_NoDup entry)).
    apply entry_combos_In. exists a, b. tauto.
  - apply List.count_occ_not_In. intros Hin.
    apply entry_combos_In in Hin as (a' & b' & Eq & _ & Ha & Hb).
    inversion Eq; subst. rewrite Ha, Hb in H. discriminate.
Qed.

Lemma pairs_seen_count (timeline : list TimelineEntry.t) (a b : string) :
  String.ltb a b = true ->
  occurrences list_string_dec [a; b] (pairs_seen timeline) =
  co_occurrences a b timeline.
Proof.
  intros E. unfold occurrences, co_occurrences, pairs_seen. f_equal.
  induction timeline as [|entry tl IH]; simpl; [reflexivity |].
  rewrite List.count_occ_app, IH, (entry_combos_count entry a b E).
  destruct (appears a entry && appears b entry); reflexivity.
Qed.

Lemma pair_counter_Counter (timeline : list TimelineEntry.t)
    (init : list (list string * Z)) :
  List.fold_left
    (fun pair_counter entry =>
       List.fold_left (fun c combo => incr list_string_dec combo c)
                      (entry_combos entry) pair_counter)
    timeline init =
  List.fold_left (fun c combo => incr list_string_dec combo c)
                 (pairs_seen timeline) init.
Proof.
  revert init. induction timeline as [|entry tl IH]; intros init; simpl.
  - reflexivity.
  - rewrite IH. unfold pairs_seen. simpl.
    rewrite List.fold_left_app. reflexivity.
Qed.

Lemma compute_co_occurrence_ranking (timeline : list TimelineEntry.t) :
  compute_co_occurrence timeline =
  List.map (fun '(labels, count) => CoOccurrenceEntry.mk labels count)
    (most_common (Counter list_string_dec (pairs_seen timeline))).
Proof.
  unfold compute_co_occurrence. rewrite pair_counter_Counter. reflexivity.
Qed.
End CoOccurrenceFacts.

(** C5. Every entry [compute_co_occurrence] emits has exactly two labels,
    the first strictly below the second in the order of strings (so never
    twice the same label, never a group of another size); its count is
    the number of timeline entries in which both labels have a positive
    count, and every such pair of labels that shares at least one entry
    is emitted; no pair is emitted twice; the counts do not increase along the
    output, and entries with equal counts stand in the order in which the
    loops first met their pairs. *)
Theorem compute_co_occurrence_spec {O : SetOrder}
    (timeline : list TimelineEntry.t) :
  let out := compute_co_occurrence timeline in
  (forall e, In e out ->
     exists a b,
       CoOccurrenceEntry.labels e = [a; b]
       /\ String.ltb a b = true /\ a <> b
       /\ CoOccurrenceEntry.count e = co_occurrences a b timeline)
  /\ (forall a b, String.ltb a b = true ->
        (0 < co_occurrences a b timeline)%Z ->
        In (CoOccurrenceEntry.mk [a; b] (co_occurrences a b timeline)) out)
  /\ List.NoDup (List.map CoOccurrenceEntry.labels out)
  /\ StronglySorted
       (fun x y => (CoOccurrenceEntry.count y <= CoOccurrenceEntry.count x)%Z)
       out
  /\ (forall x y, precedes x y out ->
        CoOccurrenceEntry.count x = CoOccurrenceEntry.count y ->
        precedes (CoOccurrenceEntry.labels x) (CoOccurrenceEntry.labels y)
                 (first_seen list_string_dec (pairs_seen timeline))).
Proof.
  cbv zeta. rewrite compute_co_occurrence_ranking.
  set (mk := fun '(labels, count) => CoOccurrenceEntry.mk labels count).
  split; [| split; [| split; [| split]]].
  - intros e He. apply List.in_map_iff in He as ([k n] & <- & H).
    apply ranking_In in H as [Hk ->]. unfold pairs_seen in Hk.
    apply List.in_flat_map in Hk as (entry & _ & Hk).
    apply entry_combos_In in Hk as (a & b & -> & E & _ & _).
    exists a, b. simpl. split; [reflexivity |]. split; [exact E |].
    split; [| apply pairs_seen_count, E].
    intros ->. rewrite ltb_irrefl in E. discriminate.
  - intros a b E Hpos. rewrite <- (pairs_seen_count timeline a b E) in *.
    apply List.in_map_iff.
    exists ([a; b], occurrences list_string_dec [a; b] (pairs_seen timeline)).
    split; [reflexivity |]. apply ranking_In. split; [| reflexivity].
    apply (occurrences_pos list_string_dec). exact Hpos.
  - replace (List.map CoOccurrenceEntry.labels (List.map mk _))
      with (List.map fst
              (most_common (Counter list_string_dec (pairs_seen timeline)))).
    + apply ranking_keys_NoDup.
    + rewrite List.map_map. apply List.map_ext. intros [k n]. reflexivity.
  - apply StronglySorted_map.
    eapply StronglySorted_ind with
      (P := StronglySorted (fun a b : list string * Z =>
              (CoOccurrenceEntry.count (mk b)
               <= CoOccurrenceEntry.count (mk a))%Z));
      [constructor | |
       apply (most_common_descending
                (Counter list_string_dec (pairs_seen timeline)))].
    intros [k n] l S IH F. constructor; [exact IH |].
    eapply List.Forall_impl; [| exact F]. intros [k' n'] H. exact H.
  - intros x y P E.
    apply precedes_map_inv in P as ([k n] & [k' n'] & <- & <- & P).
    simpl in *. exact (ranking_ties list_string_dec _ _ _ P E).
Qed.

(** ** [compute_sentiment] *)

Lemma truthy_filter {A : Type} (p : A -> bool) (l : list A) :
  truthy (List.filter p l) = List.existsb p l.
Proof.
  induction l as [|x l IH]; simpl; [reflexivity |].
  destruct (p x); [reflexivity | exact IH].
Qed.

Lemma existsb_same_elements {A : Type} (p : A -> bool) (l1 l2 : list A) :
  (forall x, In x l1 <-> In x l2) -> List.existsb p l1 = List.existsb p l2.
Proof.
  intros H. apply eq_true_iff_eq. rewrite !List.existsb_exists.
  split; intros (x & Hx & Px); exists x; split; try exact Px; apply H, Hx.
Qed.

Lemma set_inter_truthy {O : SetOrder} (words keywords : list string) :
  truthy (set_inter (set_elements words) keywords) =
  intersects words keywords.
Proof.
  unfold set_inter, intersects. rewrite truthy_filter.
  apply existsb_same_elements. intros x. apply set_elements_In.
Qed.

Lemma segment_score_expected {L : StrLib} {O : SetOrder} (text : string) :
  segment_score text = expected_score text.
Proof.
  unfold segment_score, expected_score. cbv zeta. rewrite !set_inter_truthy.
  destruct (intersects _ positive_keywords),
           (intersects _ negative_keywords); reflexivity.
Qed.

Lemma compute_sentiment_map {L : StrLib} {O : SetOrder}
    (transcript : list TranscriptSegment.t) :
  compute_sentiment transcript =
  List.map
    (fun segment =>
       SentimentPoint.mk (TranscriptSegment.start segment)
                         (segment_score (TranscriptSegment.text segment)))
    transcript.
Proof.
  unfold compute_sentiment.
  exact (fold_left_snoc
           (fun segment =>
              SentimentPoint.mk (TranscriptSegment.start segment)
                (segment_score (TranscriptSegment.text segment)))
           transcript []).
Qed.

(** C6. [compute_sentiment] gives one point per segment, in transcript
    order, anchored at the segment's start; with the words of the segment
    being its lower-cased text split at whitespace, the score is 0.6 when
    some word is a positive keyword and none a negative one, -0.6 when
    some word is a negative keyword and none a positive one, and 0.0 when
    both kinds or neither occur; so it is one of -0.6, 0.0, 0.6. *)
Theorem compute_sentiment_spec {L : StrLib} {O : SetOrder}
    (transcript : list TranscriptSegment.t) :
  Forall2
    (fun segment point =>
       let words := split (lower (TranscriptSegment.text segment)) in
       let score := SentimentPoint.sentiment point in
       SentimentPoint.timestamp point = TranscriptSegment.start segment
       /\ score =
          match intersects words positive_keywords,
                intersects words negative_keywords with
          | true, false => 0.6%float
          | false, true => (-0.6)%float
          | true, true | false, false => 0.0%float
          end
       /\ (score = (-0.6)%float \/ score = 0.0%float \/ score = 0.6%float))
    transcript (compute_sentiment transcript).
Proof.
  rewrite compute_sentiment_map. apply Forall2_map_r. intros segment _.
  cbv zeta. simpl. rewrite segment_score_expected. unfold expected_score.
  split; [reflexivity |]. split; [reflexivity |].
  destruct (intersects _ positive_keywords),
           (intersects _ negative_keywords); tauto.
Qed.

(** ** [build_analytics_bundle] *)

Lemma entry_combos_any_order (O1 O2 : SetOrder) (entry : TimelineEntry.t) :
  @entry_combos O1 entry = @entry_combos O2 entry.
Proof.
  unfold entry_combos. f_equal. apply sorted_of_perm.
  eapply Permutation_trans; [apply (@set_elements_perm O1) |].
  apply Permutation_sym, (@set_elements_perm O2).
Qed.

Lemma compute_co_occurrence_any_order (O1 O2 : SetOrder)
    (timeline : list TimelineEntry.t) :
  @compute_co_occurrence O1 timeline = @compute_co_occurrence O2 timeline.
Proof.
  rewrite !compute_co_occurrence_ranking. do 3 f_equal.
  unfold pairs_seen. apply List.flat_map_ext. intros entry.
  apply entry_combos_any_order.
Qed.

Lemma compute_sentiment_any_order {L : StrLib} (O1 O2 : SetOrder)
    (transcript : list TranscriptSegment.t) :
  @compute_sentiment L O1 transcript = @compute_sentiment L O2 transcript.
Proof.
  rewrite !compute_sentiment_map. apply List.map_ext. intros segment.
  rewrite !segment_score_expected. reflexivity.
Qed.

(** C9. The bundle is a function of the transcript, the detections, the
    window and the supplied timeline alone: the one thing that varies
    between two runs of the interpreter on the same inputs, the order in
    which sets are iterated, has no effect on it. *)
Theorem build_analytics_bundle_deterministic {L : StrLib}
    (O1 O2 : SetOrder)
    (transcript : list TranscriptSegment.t)
    (detections : list ObjectDetection.t) (window : float)
    (timeline : option (list TimelineEntry.t)) :
  @build_analytics_bundle L O1 transcript detections window timeline =
  @build_analytics_bundle L O2 transcript detections window timeline.
Proof.
  unfold build_analytics_bundle.
  rewrite (compute_co_occurrence_any_order O1 O2).
  rewrite (compute_sentiment_any_order O1 O2). reflexivity.
Qed.

(** The timeline [build_analytics_bundle] works on. *)
Lemma build_analytics_bundle_co_occurrence {L : StrLib} {O : SetOrder}
    (transcript : list TranscriptSegment.t)
    (detections : list ObjectDetection.t) (window : float)
    (timeline : option (list TimelineEntry.t)) :
  AnalyticsBundle.co_occurrence
    (build_analytics_bundle transcript detections window timeline) =
  compute_co_occurrence
    match timeline with
    | Some (e :: r) => e :: r
    | Some [] | None => build_timeline transcript detections window
    end.
Proof. reflexivity. Qed.

(** C10, as the code has it. A supplied timeline that is not empty is used
    as it is; an empty one is taken for a missing one and the timeline is
    built from the transcript and the detections, which gives the same
    pairs when the supplied timeline was itself built from them. Either
    way the other two signals come from the detections and from the
    transcript. *)
Theorem build_analytics_bundle_supplied_timeline {L : StrLib} {O : SetOrder}
    (transcript : list TranscriptSegment.t)
    (detections : list ObjectDetection.t) (window : float)
    (timeline : list TimelineEntry.t) :
  let bundle :=
    build_analytics_bundle transcript detections window (Some timeline) in
  AnalyticsBundle.co_occurrence bundle =
    (if truthy timeline then compute_co_occurrence timeline
     else compute_co_occurrence (build_timeline transcript detections window))
  /\ (timeline = build_timeline transcript detections window ->
      AnalyticsBundle.co_occurrence bundle = compute_co_occurrence timeline)
  /\ AnalyticsBundle.object_frequency bundle =
     compute_object_frequency detections
  /\ AnalyticsBundle.sentiment_trend bundle = compute_sentiment transcript.
Proof.
  cbv zeta. rewrite build_analytics_bundle_co_occurrence.
  split; [destruct timeline; reflexivity |].
  split; [| split; reflexivity].
  intros E. destruct timeline; [rewrite <- E |]; reflexivity.
Qed.

Section PipelineFacts.
Context {L : StrLib} {O : SetOrder}.
Variable settings : Settings.
Variable components : PipelineComponents.

(** Running the monad's plumbing and the primitives, and nothing else. *)
Ltac run :=
  cbv beta iota zeta delta
    [_run_pipeline process_try process_except process_enter
     bind try_except ret raise call utcnow session_get commit logger
     write_json add_job_log fst snd
     jobs history job_logs files write_protected now app_log].

Ltac run_in H :=
  cbv beta iota zeta delta
    [_run_pipeline process_try process_except process_enter
     bind try_except ret raise call utcnow session_get commit logger
     write_json add_job_log fst snd
     jobs history job_logs files write_protected now app_log] in H.

(** [_run_pipeline] leaves the job table and the disk alone; it only
    appends log rows of level INFO. *)
Lemma _run_pipeline_frame (job_id : string) (w : World) :
  let w' := snd (_run_pipeline settings components job_id w) in
  jobs w' = jobs w /\ history w' = history w /\ files w' = files w
  /\ write_protected w' = write_protected w /\ app_log w' = app_log w
  /\ exists added,
       job_logs w' = job_logs w ++ added
       /\ info_rows job_id added.
Proof.
  destruct w as [js hs ls fs wp n al]. run.
  assert (G : forall added : list JobLog.t,
             info_rows job_id added ->
             js = js /\ hs = hs /\ fs = fs /\ wp = wp /\ al = al
             /\ exists added', ls ++ added = ls ++ added'
                               /\ info_rows job_id added').
  { intros added H. repeat (split; [reflexivity |]). exists added. tauto. }
  destruct (js !! job_id) as [job|].
  2: { repeat (split; [reflexivity |]). exists [].
       rewrite List.app_nil_r. split; [reflexivity | constructor]. }
  destruct (audio_extractor components _ _) as [audio_file|e].
  2: { apply G. repeat constructor. }
  destruct (transcriber components _) as [transcript|e].
  2: { rewrite <- !List.app_assoc. apply G. repeat constructor. }
  destruct (detector components _) as [detections|e].
  2: { rewrite <- !List.app_assoc. apply G. repeat constructor. }
  destruct (summariser components _ _) as [summary|e].
  all: rewrite <- !List.app_assoc; apply G; repeat constructor.
Qed.

Lemma process_enter_known (job_id : string) (w : World) (job : Job.t) :
  jobs w !! job_id = Some job ->
  process_enter job_id w =
  (Ok tt,
   mkWorld (<[job_id := started (now w) job]> (jobs w))
           (history w ++ [started (now w) job])
           (job_logs w ++
            [JobLog.mk (Some (S (List.length (job_logs w)))) job_id
                       (S (now w)) "INFO" "Pipeline started"])
           (files w) (write_protected w) (S (S (now w)))
           (app_log w ++ [("INFO", "Starting pipeline for job " +:+ job_id)])).
Proof.
  destruct w as [js hs ls fs wp n al]. cbn [jobs]. intros H. run.
  rewrite H. reflexivity.
Qed.

Lemma process_enter_unknown (job_id : string) (w : World) :
  jobs w !! job_id = None ->
  process_enter job_id w =
  (Raise (ValueError ("Job " +:+ job_id +:+ " not found")),
   mkWorld (jobs w) (history w) (job_logs w) (files w) (write_protected w)
           (now w)
           (app_log w ++ [("INFO", "Starting pipeline for job " +:+ job_id)])).
Proof.
  destruct w as [js hs ls fs wp n al]. cbn [jobs]. intros H. run.
  rewrite H. reflexivity.
Qed.

Lemma process_except_known (job_id : string) (exc : exn) (w : World)
    (job : Job.t) :
  jobs w !! job_id = Some job ->
  process_except job_id exc w =
  (Ok tt,
   mkWorld (<[job_id := failed (now w) (str_exc exc) job]> (jobs w))
           (history w ++ [failed (now w) (str_exc exc) job])
           (job_logs w ++
            [JobLog.mk (Some (S (List.length (job_logs w)))) job_id
                       (S (now w)) "ERROR"
                       ("Pipeline failed: " +:+ str_exc exc)])
           (files w) (write_protected w) (S (S (now w)))
           (app_log w ++ [("ERROR", "Pipeline failed for job " +:+ job_id)])).
Proof.
  destruct w as [js hs ls fs wp n al]. cbn [jobs]. intros H. run.
  rewrite H. reflexivity.
Qed.

(** What the [try] block does to a known job: it raises and has
    committed nothing, or it returns and has written the result document
    and the completed row. *)
Lemma process_try_outcome (job_id : string) (w : World) (job : Job.t) :
  jobs w !! job_id = Some job ->
  let path := path_join (result_dir settings) (job_id +:+ ".json") in
  let w' := snd (process_try settings components job_id w) in
  write_protected w' = write_protected w
  /\ (exists added,
        job_logs w' = job_logs w ++ added /\ info_rows job_id added)
  /\ match fst (process_try settings components job_id w) with
     | Raise exc =>
         jobs w' = jobs w /\ history w' = history w /\ files w' = files w
     | Ok _ =>
         exists t result,
           jobs w' = <[job_id := completed t path job]> (jobs w)
           /\ history w' = history w ++ [completed t path job]
           /\ files w' = <[path := result]> (files w)
     end.
Proof.
  intros H. cbv zeta.
  pose proof (_run_pipeline_frame job_id w) as F. cbv zeta in F.
  remember (process_try settings components job_id w) as r eqn:R.
  unfold process_try in R. unfold bind at 1 in R.
  destruct (_run_pipeline settings components job_id w) as [[result|exc] w2].
  2: { subst r. cbn [fst snd] in *.
       destruct F as (Fj & Fh & Ff & Fp & _ & Fl). tauto. }
  cbn [fst snd] in F. destruct F as (Fj & Fh & Ff & Fp & Fa & added & Fl & Fi).
  destruct w2 as [js2 hs2 ls2 fs2 wp2 n2 al2].
  destruct w as [js hs ls fs wp n al].
  cbn [jobs history job_logs files write_protected app_log] in *.
  subst js2 hs2 fs2 wp2 al2 ls2.
  run_in R. destruct (wp !! _) as [msg|].
  { subst r. cbn [fst snd]. run. split; [reflexivity |]. split; [| tauto].
    exists added. split; [reflexivity | assumption]. }
  rewrite H in R. run_in R. subst r. run.
  split; [reflexivity |]. split.
  - eexists. rewrite <- List.app_assoc. split; [reflexivity |].
    apply List.Forall_app. split; [exact Fi |]. repeat constructor.
  - exists n2, result. repeat split.
Qed.

Lemma process_try_stage_failure (job_id : string) (w : World) (exc : exn) :
  fst (_run_pipeline settings components job_id w) = Raise exc ->
  fst (process_try settings components job_id w) = Raise exc.
Proof.
  intros E. unfold process_try. unfold bind at 1.
  destruct (_run_pipeline settings components job_id w) as [[r|e] w2].
  - discriminate E.
  - cbn [fst] in *. injection E as ->. reflexivity.
Qed.
End PipelineFacts.

Section ProcessFacts.
Context {L : StrLib} {O : SetOrder}.
Variable settings : Settings.
Variable components : PipelineComponents.

Lemma process_unfold (job_id : string) (w : World) :
  process settings components job_id w =
  match process_enter job_id w with
  | (Ok _, w1) =>
      match process_try settings components job_id w1 with
      | (Ok a, w') => (Ok a, w')
      | (Raise exc, w') => process_except job_id exc w'
      end
  | (Raise e, w1) => (Raise e, w1)
  end.
Proof. reflexivity. Qed.

(** What [process] does to a job that is in the table: it returns, and
    has written two versions of the row, the started one and then the
    completed or the failed one. *)
Lemma process_known (job_id : string) (w : World) (job : Job.t) :
  jobs w !! job_id = Some job ->
  let path := path_join (result_dir settings) (job_id +:+ ".json") in
  let j1 := started (now w) job in
  let w1 := snd (process_enter job_id w) in
  let w' := snd (process settings components job_id w) in
  fst (process settings components job_id w) = Ok tt
  /\ write_protected w' = write_protected w
  /\ match fst (process_try settings components job_id w1) with
     | Raise exc =>
         exists t infos n t',
           jobs w' = <[job_id := failed t (str_exc exc) j1]> (jobs w)
           /\ history w' = history w ++ [j1; failed t (str_exc exc) j1]
           /\ files w' = files w
           /\ job_logs w' =
              job_logs w ++ infos ++
              [JobLog.mk n job_id t' "ERROR"
                         ("Pipeline failed: " +:+ str_exc exc)]
           /\ info_rows job_id infos
     | Ok _ =>
         exists t result infos,
           jobs w' = <[job_id := completed t path j1]> (jobs w)
           /\ history w' = history w ++ [j1; completed t path j1]
           /\ files w' = <[path := result]> (files w)
           /\ job_logs w' = job_logs w ++ infos
           /\ info_rows job_id infos
     end.
Proof.
  intros H. cbv zeta. rewrite process_unfold.
  rewrite (process_enter_known job_id w job H). cbn [snd].
  set (j1 := started (now w) job).
  set (w1 := mkWorld _ _ _ _ _ _ _).
  assert (H1 : jobs w1 !! job_id = Some j1) by apply lookup_insert_eq.
  pose proof (process_try_outcome settings components job_id w1 j1 H1) as T.
  cbv zeta in T.
  destruct (process_try settings components job_id w1) as [[[]|exc] w2];
    cbn [fst snd] in *; destruct T as (Tp & (added & Tl & Ti) & T).
  - destruct T as (t & result & Tj & Th & Tf).
    split; [reflexivity |]. split; [exact Tp |].
    exists t, result, (JobLog.mk (Some (S (List.length (job_logs w))))
                         job_id (S (now w)) "INFO" "Pipeline started"
                       :: added).
    rewrite Tj, Th, Tf, Tl. subst w1. cbn [jobs history files job_logs].
    rewrite insert_insert_eq, <- !List.app_assoc.
    repeat split. constructor; [split; reflexivity | exact Ti].
  - destruct T as (Tj & Th & Tf).
    assert (H2 : jobs w2 !! job_id = Some j1) by (rewrite Tj; exact H1).
    rewrite (process_except_known job_id exc w2 j1 H2). cbn [fst snd].
    split; [reflexivity |]. split; [exact Tp |].
    exists (now w2),
      (JobLog.mk (Some (S (List.length (job_logs w))))
                 job_id (S (now w)) "INFO" "Pipeline started" :: added),
      (Some (S (List.length (job_logs w2)))), (S (now w2)).
    cbn [jobs history files job_logs].
    rewrite Tj, Th, Tf, Tl. subst w1. cbn [jobs history files job_logs].
    rewrite insert_insert_eq, <- !List.app_assoc.
    repeat split. constructor; [split; reflexivity | exact Ti].
Qed.

(** A job id that is not in the table: [process] raises, and has
    changed neither the table, nor the log rows, nor the disk. *)
Lemma process_unknown (job_id : string) (w : World) :
  jobs w !! job_id = None ->
  let w' := snd (process settings components job_id w) in
  fst (process settings components job_id w) =
    Raise (ValueError ("Job " +:+ job_id +:+ " not found"))
  /\ jobs w' = jobs w /\ history w' = history w
  /\ job_logs w' = job_logs w /\ files w' = files w.
Proof.
  intros H. cbv zeta. rewrite process_unfold.
  rewrite (process_enter_unknown job_id w H).
  cbn [fst snd jobs history job_logs files]. tauto.
Qed.
End ProcessFacts.

Section ProcessClaims.
Context {L : StrLib} {O : SetOrder}.
Variable settings : Settings.
Variable components : PipelineComponents.

(** C1, as the code has it. For a job id that is in the table,
    [process] returns normally; whatever exception the [try] block
    raises (a stage, the result file, the look-up inside the run) is
    turned into the failed status with the exception's message and one
    more log row of level ERROR. (The look-up at entry is outside the
    [try]: for an id that is not in the table, see [process_unknown].) *)
Theorem process_returns_for_known_job (job_id : string) (w : World)
    (job : Job.t) :
  jobs w !! job_id = Some job ->
  let w' := snd (process settings components job_id w) in
  fst (process settings components job_id w) = Ok tt
  /\ forall exc,
       fst (process_try settings components job_id
                        (snd (process_enter job_id w))) = Raise exc ->
       exists job' earlier log,
         jobs w' !! job_id = Some job'
         /\ Job.status job' = FAILED
         /\ Job.error_message job' = Some (str_exc exc)
         /\ job_logs w' = earlier ++ [log]
         /\ JobLog.job_id log = job_id
         /\ JobLog.level log = "ERROR"
         /\ JobLog.message log = "Pipeline failed: " +:+ str_exc exc.
Proof.
  intros H. cbv zeta.
  destruct (process_known settings components job_id w job H)
    as (R & _ & K).
  split; [exact R |]. intros exc E. rewrite E in K.
  destruct K as (t & infos & n & t' & Kj & _ & _ & Kl & _).
  eexists _, (job_logs w ++ infos), _. rewrite Kj, Kl.
  split; [apply lookup_insert_eq |]. rewrite List.app_assoc.
  repeat split.
Qed.

(** C3, as the code has it. When a stage raises [exc], [process] leaves
    the job failed, with [str(exc)] as its error message (not empty
    whenever the exception has a message); the last log row is of level
    ERROR, and the rows before it are the old ones followed by rows of
    level INFO; nothing is written to disk; the result path of the job
    is what it was (unset for a job that had none). *)
Theorem process_stage_failure (job_id : string) (w : World) (job : Job.t)
    (exc : exn) :
  jobs w !! job_id = Some job ->
  fst (_run_pipeline settings components job_id
                     (snd (process_enter job_id w))) = Raise exc ->
  let w' := snd (process settings components job_id w) in
  exists job' infos log,
    jobs w' !! job_id = Some job'
    /\ Job.status job' = FAILED
    /\ Job.error_message job' = Some (str_exc exc)
    /\ (str_exc exc <> "" -> Job.error_message job' <> Some "")
    /\ job_logs w' = job_logs w ++ infos ++ [log]
    /\ info_rows job_id infos
    /\ JobLog.job_id log = job_id /\ JobLog.level log = "ERROR"
    /\ files w' = files w
    /\ Job.result_path job' = Job.result_path job
    /\ (Job.result_path job = None -> Job.result_path job' = None).
Proof.
  intros H E. cbv zeta.
  apply process_try_stage_failure in E.
  destruct (process_known settings components job_id w job H)
    as (_ & _ & K).
  rewrite E in K. destruct K as (t & infos & n & t' & Kj & _ & Kf & Kl & Ki).
  eexists _, infos, _. rewrite Kj, Kl, Kf.
  split; [apply lookup_insert_eq |]. cbn.
  repeat split; try assumption; try congruence.
Qed.

(** C7, as the code has it. On a pending job, [process] writes the
    status twice: pending to processing, then processing to completed
    or to failed; both are steps of the state machine, the row ends in
    a terminal status, and no other row of the table changes. *)
Theorem process_transitions_of_pending_job (job_id : string) (w : World)
    (job : Job.t) :
  jobs w !! job_id = Some job ->
  Job.status job = PENDING ->
  let w' := snd (process settings components job_id w) in
  exists j1 j2,
    history w' = history w ++ [j1; j2]
    /\ transition (Job.status job) (Job.status j1)
    /\ transition (Job.status j1) (Job.status j2)
    /\ (Job.status j2 = COMPLETED \/ Job.status j2 = FAILED)
    /\ jobs w' !! job_id = Some j2
    /\ forall other, other <> job_id -> jobs w' !! other = jobs w !! other.
Proof.
  intros H P. cbv zeta.
  destruct (process_known settings components job_id w job H)
    as (_ & _ & K).
  destruct (fst (process_try settings components job_id _)) as [[]|exc].
  - destruct K as (t & result & infos & Kj & Kh & _).
    eexists _, _. split; [exact Kh |]. rewrite Kj, P. cbn.
    split; [constructor |]. split; [constructor |]. split; [tauto |].
    split; [apply lookup_insert_eq |].
    intros other Hne. apply lookup_insert_ne. congruence.
  - destruct K as (t & infos & n & t' & Kj & Kh & _).
    eexists _, _. split; [exact Kh |]. rewrite Kj, P. cbn.
    split; [constructor |]. split; [constructor |]. split; [tauto |].
    split; [apply lookup_insert_eq |].
    intros other Hne. apply lookup_insert_ne. congruence.
Qed.

(** Whatever the status of the job at the call, [process] first writes
    [PROCESSING]: there is no guard for a job that is already completed
    or failed. *)
Lemma process_restarts_any_job (job_id : string) (w : World) (job : Job.t) :
  jobs w !! job_id = Some job ->
  exists j1 j2,
    history (snd (process settings components job_id w)) = history w ++ [j1; j2]
    /\ Job.status j1 = PROCESSING
    /\ (Job.status j2 = COMPLETED \/ Job.status j2 = FAILED).
Proof.
  intros H.
  destruct (process_known settings components job_id w job H)
    as (_ & _ & K).
  destruct (fst (process_try settings components job_id _)) as [[]|exc].
  - destruct K as (t & result & infos & _ & Kh & _).
    eexists _, _. split; [exact Kh |]. cbn. tauto.
  - destruct K as (t & infos & n & t' & _ & Kh & _).
    eexists _, _. split; [exact Kh |]. cbn. tauto.
Qed.

(** C8, as the code has it. On a pending job that has neither a result
    path nor an error message, every version of the row that [process]
    writes satisfies the invariant, and so does the row it leaves. *)
Theorem process_keeps_job_invariant (job_id : string) (w : World)
    (job : Job.t) :
  jobs w !! job_id = Some job ->
  Job.status job = PENDING ->
  job_invariant job ->
  let w' := snd (process settings components job_id w) in
  exists j1 j2,
    history w' = history w ++ [j1; j2]
    /\ job_invariant j1 /\ job_invariant j2
    /\ jobs w' !! job_id = Some j2.
Proof.
  intros H P [Ir Ie]. cbv zeta.
  assert (Hr : Job.result_path job = None).
  { destruct (Job.result_path job); [| reflexivity].
    assert (C : Job.status job = COMPLETED) by (apply Ir; discriminate).
    congruence. }
  assert (He : Job.error_message job = None).
  { destruct (Job.error_message job); [| reflexivity].
    assert (C : Job.status job = FAILED) by (apply Ie; discriminate).
    congruence. }
  destruct (process_known settings components job_id w job H)
    as (_ & _ & K).
  destruct (fst (process_try settings components job_id _)) as [[]|exc].
  - destruct K as (t & result & infos & Kj & Kh & _).
    eexists _, _. split; [exact Kh |]. rewrite Kj.
    unfold job_invariant. cbn. rewrite Hr, He.
    repeat split; try congruence; try discriminate.
    apply lookup_insert_eq.
  - destruct K as (t & infos & n & t' & Kj & Kh & _).
    eexists _, _. split; [exact Kh |]. rewrite Kj.
    unfold job_invariant. cbn. rewrite Hr, He.
    repeat split; try congruence; try discriminate.
    apply lookup_insert_eq.
Qed.
End ProcessClaims.

(** [create_job] adds a pending row that satisfies the invariant. *)
Lemma create_job_fresh (uuid : string) (input_type : JobInputType)
    (source : string) (w : World) :
  jobs w !! uuid = None ->
  exists job,
    fst (create_job uuid input_type source w) = Ok job
    /\ jobs (snd (create_job uuid input_type source w)) !! uuid = Some job
    /\ Job.status job = PENDING /\ job_invariant job.
Proof.
  intros H. unfold create_job, bind, utcnow, session_get, commit,
    add_job_log, bind, utcnow, ret. simpl. rewrite H. simpl.
  eexists. split; [reflexivity |]. split; [apply lookup_insert_eq |].
  unfold job_invariant. cbn. repeat split; congruence.
Qed.

(* ===================================================================== *)
(** * The claims at concrete inputs *)
(* ===================================================================== *)

(** The two iteration orders differ, and the bundle is the same. *)
Example set_orders_differ :
  @set_elements insertion_order ["dog"; "cat"] = ["dog"; "cat"]
  /\ @set_elements reverse_order ["dog"; "cat"] = ["cat"; "dog"]
  /\ @build_analytics_bundle _ insertion_order great_day dog_and_cat 4 None =
     @build_analytics_bundle _ reverse_order great_day dog_and_cat 4 None.
Proof. repeat split; vm_compute; reflexivity. Qed.

(** The scenarios of the specification. *)
Example scenario_great_day :
  build_timeline great_day one_dog 4 =
    [TimelineEntry.mk 0 (Some "it was a great day") [("dog", 1%Z)]]
  /\ build_analytics_bundle great_day one_dog 4 None =
     AnalyticsBundle.mk [ObjectFrequency.mk "dog" 1] []
                        [SentimentPoint.mk 0 0.6].
Proof. split; vm_compute; reflexivity. Qed.

Example scenario_empty :
  build_timeline [] [] 4 = []
  /\ build_analytics_bundle [] [] 4 None = AnalyticsBundle.mk [] [] [].
Proof. split; reflexivity. Qed.

Example scenario_extraction_fails :
  let w' := snd (process example_settings no_input_components "job-1"
                         created_world) in
  jobs w' !! "job-1" =
    Some (Job.mk "job-1" UPLOAD "/srv/via/storage/uploads/a.mp4" FAILED 0 5
                 (Some no_input_message) None)
  /\ files w' = ∅
  /\ List.map JobLog.level (job_logs w') = ["INFO"; "INFO"; "INFO"; "ERROR"].
Proof. cbv zeta. repeat split; vm_compute; reflexivity. Qed.

(** C1, counterexample: the look-up at entry is outside the [try]; for an
    id that is not in the table [process] raises [ValueError]. *)
Lemma process_raises_for_unknown_job :
  fst (process example_settings stub_components "job-1" empty_world) =
  Raise (ValueError "Job job-1 not found").
Proof. vm_compute. reflexivity. Qed.

(** C1 at a submitted job and the stub components. *)
Lemma process_returns_for_known_job_witness :
  jobs created_world !! "job-1" = Some created_job
  /\ fst (process example_settings stub_components "job-1" created_world) =
     Ok tt.
Proof.
  assert (H : jobs created_world !! "job-1" = Some created_job)
    by (vm_compute; reflexivity).
  split; [exact H |].
  exact (proj1 (process_returns_for_known_job
                  example_settings stub_components "job-1"
                  created_world created_job H)).
Defined.

(** C3, counterexample: the interface class [Transcriber] raises
    [NotImplementedError] without a message; the job fails with the empty
    string as its error message. *)
Lemma process_failure_with_empty_message :
  fst (_run_pipeline example_settings abstract_transcriber_components "job-1"
         (snd (process_enter "job-1" created_world))) =
    Raise NotImplementedError
  /\ jobs (snd (process example_settings abstract_transcriber_components
                  "job-1" created_world)) !! "job-1" =
     Some (Job.mk "job-1" UPLOAD "/srv/via/storage/uploads/a.mp4" FAILED 0 6
                  (Some "") None).
Proof. split; vm_compute; reflexivity. Qed.

(** C3 at a submitted job whose audio extraction fails. *)
Lemma process_stage_failure_witness :
  jobs created_world !! "job-1" = Some created_job
  /\ fst (_run_pipeline example_settings no_input_components "job-1"
            (snd (process_enter "job-1" created_world))) =
     Raise (RuntimeError no_input_message)
  /\ exists job',
       jobs (snd (process example_settings no_input_components "job-1"
                    created_world)) !! "job-1" = Some job'
       /\ Job.status job' = FAILED
       /\ Job.error_message job' <> Some ""
       /\ Job.result_path job' = None.
Proof.
  assert (H : jobs created_world !! "job-1" = Some created_job)
    by (vm_compute; reflexivity).
  assert (E : fst (_run_pipeline example_settings no_input_components "job-1"
                     (snd (process_enter "job-1" created_world))) =
              Raise (RuntimeError no_input_message))
    by (vm_compute; reflexivity).
  split; [exact H |]. split; [exact E |].
  destruct (process_stage_failure example_settings no_input_components
              "job-1" created_world created_job _ H E)
    as (job' & _ & _ & Hj & Hs & _ & Hm & _ & _ & _ & _ & _ & _ & Hr).
  exists job'. split; [exact Hj |]. split; [exact Hs |].
  split; [apply Hm; discriminate | apply Hr; reflexivity].
Defined.

(** C7, counterexample: a job that is completed is started again by a
    second call of [process], and ends failed when a stage fails then. *)
Lemma process_restarts_completed_job :
  let w1 := snd (process example_settings stub_components "job-1"
                         created_world) in
  let w2 := snd (process example_settings no_input_components "job-1" w1) in
  List.map Job.status (history w2) =
    [PENDING; PROCESSING; COMPLETED; PROCESSING; FAILED]
  /\ ~ transition COMPLETED PROCESSING.
Proof.
  cbv zeta. split; [vm_compute; reflexivity |]. intros H. inversion H.
Qed.

(** C7 at a submitted job and the stub components. *)
Lemma process_transitions_of_pending_job_witness :
  jobs created_world !! "job-1" = Some created_job
  /\ Job.status created_job = PENDING
  /\ exists j1 j2,
       history (snd (process example_settings stub_components "job-1"
                       created_world)) =
       history created_world ++ [j1; j2]
       /\ transition PENDING (Job.status j1)
       /\ transition (Job.status j1) (Job.status j2).
Proof.
  assert (H : jobs created_world !! "job-1" = Some created_job)
    by (vm_compute; reflexivity).
  split; [exact H |]. split; [reflexivity |].
  destruct (process_transitions_of_pending_job example_settings
              stub_components "job-1" created_world created_job H eq_refl)
    as (j1 & j2 & Hh & T1 & T2 & _).
  exists j1, j2. split; [exact Hh |]. split; [exact T1 | exact T2].
Defined.

(** C8, counterexample: a failed job keeps its error message when a second
    call of [process] completes it. *)
Lemma process_completes_failed_job :
  let w1 := snd (process example_settings no_input_components "job-1"
                         created_world) in
  let w2 := snd (process example_settings stub_components "job-1" w1) in
  exists job,
    jobs w2 !! "job-1" = Some job
    /\ Job.status job = COMPLETED
    /\ Job.result_path job = Some "/srv/via/storage/results/job-1.json"
    /\ Job.error_message job = Some no_input_message
    /\ ~ job_invariant job.
Proof.
  cbv zeta. eexists. split; [vm_compute; reflexivity |].
  split; [reflexivity |]. split; [reflexivity |]. split; [reflexivity |].
  intros [_ [H _]]. cbn in H.
  assert (C : COMPLETED = FAILED) by (apply H; discriminate).
  discriminate.
Qed.

(** C8 at a submitted job and the stub components. *)
Lemma process_keeps_job_invariant_witness :
  jobs created_world !! "job-1" = Some created_job
  /\ Job.status created_job = PENDING
  /\ job_invariant created_job
  /\ exists j1 j2,
       history (snd (process example_settings stub_components "job-1"
                       created_world)) =
       history created_world ++ [j1; j2]
       /\ job_invariant j1 /\ job_invariant j2.
Proof.
  assert (H : jobs created_world !! "job-1" = Some created_job)
    by (vm_compute; reflexivity).
  assert (I : job_invariant created_job).
  { unfold job_invariant. simpl. split; split; intros; congruence. }
  split; [exact H |]. split; [reflexivity |]. split; [exact I |].
  destruct (process_keeps_job_invariant example_settings stub_components
              "job-1" created_world created_job H eq_refl I)
    as (j1 & j2 & Hh & I1 & I2 & _).
  exists j1, j2. split; [exact Hh |]. split; [exact I1 | exact I2].
Defined.

(** C10, counterexample: an empty timeline is supplied with a transcript
    and detections of which [build_timeline] makes a timeline with a
    pair; the bundle has the pair, the supplied timeline has none. *)
Lemma build_analytics_bundle_empty_timeline :
  AnalyticsBundle.co_occurrence
    (build_analytics_bundle great_day dog_and_cat 4 (Some [])) =
    [CoOccurrenceEntry.mk ["cat"; "dog"] 1]
  /\ compute_co_occurrence [] = [].
Proof. split; vm_compute; reflexivity. Qed.

(* ===================================================================== *)
(** * More about the orchestrator *)
(* ===================================================================== *)

Section ProcessMore.
Context {L : StrLib} {O : SetOrder}.
Variable settings : Settings.
Variable components : PipelineComponents.

Ltac steps_in H :=
  cbv beta iota zeta delta
    [bind try_except ret raise call utcnow session_get commit logger
     write_json add_job_log fst snd
     jobs history job_logs files write_protected now app_log] in H.

Ltac steps :=
  cbv beta iota zeta delta
    [bind try_except ret raise call utcnow session_get commit logger
     write_json add_job_log fst snd
     jobs history job_logs files write_protected now app_log].

(** The [try] block when the run returns and the result file can be
    written. *)
Lemma process_try_success (job_id : string) (w : World) (job : Job.t)
    (result : PipelineResult.t) :
  jobs w !! job_id = Some job ->
  fst (_run_pipeline settings components job_id w) = Ok result ->
  write_protected w !! path_join (result_dir settings) (job_id +:+ ".json")
    = None ->
  let path := path_join (result_dir settings) (job_id +:+ ".json") in
  let w2 := snd (_run_pipeline settings components job_id w) in
  process_try settings components job_id w =
  (Ok tt,
   mkWorld (<[job_id := completed (now w2) path job]> (jobs w))
           (history w ++ [completed (now w2) path job])
           (job_logs w2 ++
            [JobLog.mk (Some (S (List.length (job_logs w2)))) job_id
                       (S (now w2)) "INFO" "Pipeline completed successfully"])
           (<[path := result]> (files w)) (write_protected w)
           (S (S (now w2))) (app_log w)).
Proof.
  intros H E P. cbv zeta.
  pose proof (_run_pipeline_frame settings components job_id w) as F.
  cbv zeta in F. unfold process_try. unfold bind at 1.
  destruct (_run_pipeline settings components job_id w) as [[r|e] w2];
    cbn [fst snd] in *; [| discriminate E].
  injection E as ->.
  destruct F as (Fj & Fh & Ff & Fp & Fa & _).
  destruct w2 as [js2 hs2 ls2 fs2 wp2 n2 al2].
  destruct w as [js hs ls fs wp n al].
  cbn [jobs history job_logs files write_protected app_log now] in *.
  subst js2 hs2 fs2 wp2 al2. steps. rewrite P, H. reflexivity.
Qed.

(** The [try] block when the run returns and the result file cannot be
    written. *)
Lemma process_try_not_writable (job_id : string) (w : World)
    (result : PipelineResult.t) (msg : string) :
  fst (_run_pipeline settings components job_id w) = Ok result ->
  write_protected w !! path_join (result_dir settings) (job_id +:+ ".json")
    = Some msg ->
  fst (process_try settings components job_id w) = Raise (OSError msg).
Proof.
  intros E P.
  pose proof (_run_pipeline_frame settings components job_id w) as F.
  cbv zeta in F. unfold process_try. unfold bind at 1.
  destruct (_run_pipeline settings components job_id w) as [[r|e] w2];
    cbn [fst snd] in *; [| discriminate E].
  destruct F as (_ & _ & _ & Fp & _).
  destruct w2 as [js2 hs2 ls2 fs2 wp2 n2 al2].
  destruct w as [js hs ls fs wp n al].
  cbn [write_protected] in *. subst wp2. steps. rewrite P. reflexivity.
Qed.

(** X1. When every stage returns and the result file can be written,
    [process] returns, the job is completed, its result path is the file
    [<result_dir>/<job_id>.json], that file holds the result of the run,
    the error message of the job is left as it was, and the log rows added
    are of level INFO, the last one saying that the pipeline completed. *)
Theorem process_success (job_id : string) (w : World) (job : Job.t)
    (result : PipelineResult.t) :
  jobs w !! job_id = Some job ->
  fst (_run_pipeline settings components job_id
                     (snd (process_enter job_id w))) = Ok result ->
  write_protected w !! path_join (result_dir settings) (job_id +:+ ".json")
    = None ->
  let path := path_join (result_dir settings) (job_id +:+ ".json") in
  let w' := snd (process settings components job_id w) in
  fst (process settings components job_id w) = Ok tt
  /\ (exists job',
        jobs w' !! job_id = Some job'
        /\ Job.status job' = COMPLETED
        /\ Job.result_path job' = Some path
        /\ Job.error_message job' = Job.error_message job
        /\ Job.source job' = Job.source job)
  /\ files w' !! path = Some result
  /\ (exists infos last,
        job_logs w' = job_logs w ++ infos ++ [last]
        /\ info_rows job_id infos
        /\ JobLog.job_id last = job_id /\ JobLog.level last = "INFO"
        /\ JobLog.message last = "Pipeline completed successfully").
Proof.
  intros H E P. cbv zeta. rewrite process_unfold.
  rewrite (process_enter_known job_id w job H) in *. cbn [snd] in E.
  set (w1 := mkWorld _ _ _ _ _ _ _) in *.
  assert (H1 : jobs w1 !! job_id = Some (started (now w) job))
    by apply lookup_insert_eq.
  pose proof (_run_pipeline_frame settings components job_id w1) as F.
  cbv zeta in F. destruct F as (_ & _ & _ & _ & _ & added & Fl & Fi).
  rewrite (process_try_success job_id w1 _ result H1 E P). cbn [fst snd].
  cbn [jobs files job_logs]. split; [reflexivity |]. split; [| split].
  - eexists. split; [apply lookup_insert_eq |]. cbn. repeat split.
  - apply lookup_insert_eq.
  - rewrite Fl. subst w1. cbn [job_logs]. rewrite <- !List.app_assoc.
    eexists (_ :: added), _. split; [reflexivity |].
    split; [constructor; [split; reflexivity | exact Fi] |].
    repeat split.
Qed.

(** X2. When every stage returns and the result file cannot be opened for
    writing, the job fails with the message of that error; no file is
    written and the result path of the job is left as it was. *)
Theorem process_result_not_writable (job_id : string) (w : World)
    (job : Job.t) (result : PipelineResult.t) (msg : string) :
  jobs w !! job_id = Some job ->
  fst (_run_pipeline settings components job_id
                     (snd (process_enter job_id w))) = Ok result ->
  write_protected w !! path_join (result_dir settings) (job_id +:+ ".json")
    = Some msg ->
  let w' := snd (process settings components job_id w) in
  fst (process settings components job_id w) = Ok tt
  /\ files w' = files w
  /\ exists job',
       jobs w' !! job_id = Some job'
       /\ Job.status job' = FAILED
       /\ Job.error_message job' = Some msg
       /\ Job.result_path job' = Job.result_path job.
Proof.
  intros H E P. cbv zeta.
  destruct (process_known settings components job_id w job H) as (R & _ & K).
  rewrite (process_enter_known job_id w job H) in *. cbn [snd] in *.
  rewrite (process_try_not_writable job_id _ result msg E P) in K.
  destruct K as (t & infos & n & t' & Kj & _ & Kf & _).
  split; [exact R |]. split; [exact Kf |].
  eexists. rewrite Kj. split; [apply lookup_insert_eq |]. cbn. repeat split.
Qed.


End ProcessMore.

Section RunPipelineMore.
Context {L : StrLib} {O : SetOrder}.
Variable settings : Settings.

Ltac run_steps :=
  cbv beta iota zeta delta
    [_run_pipeline bind ret raise call utcnow session_get add_job_log
     fst snd jobs history job_logs files write_protected now app_log].

Ltac run_steps_in H :=
  cbv beta iota zeta delta
    [_run_pipeline bind ret raise call utcnow session_get add_job_log
     fst snd jobs history job_logs files write_protected now app_log] in H.

(** A timeline built from the transcript and the detections may be
    supplied or left out: the bundle is the same. *)
Lemma build_analytics_bundle_own_timeline
    (transcript : list TranscriptSegment.t)
    (detections : list ObjectDetection.t) (window : float) :
  build_analytics_bundle transcript detections window
    (Some (build_timeline transcript detections window)) =
  build_analytics_bundle transcript detections window None.
Proof.
  unfold build_analytics_bundle.
  destruct (build_timeline transcript detections window) eqn:E;
    reflexivity.
Qed.

(** X4. The result of a run that returns: the job is in the table; the
    audio extractor was given the source of the job and the path
    [<storage_root>/audio/<job_id>.wav]; the transcriber was given the
    file the extractor returned; the detector was given the source; the
    summariser was given their two outputs; the timeline and the analytics
    of the result are the ones of exactly that transcript and those
    detections, for the configured window. *)
Theorem _run_pipeline_result (components : PipelineComponents)
    (job_id : string) (w : World) (result : PipelineResult.t) :
  fst (_run_pipeline settings components job_id w) = Ok result ->
  let window := timeline_window settings in
  let transcript := PipelineResult.transcript result in
  let detections := PipelineResult.detections result in
  exists job audio_file,
    jobs w !! job_id = Some job
    /\ audio_extractor components (Job.source job)
         (path_join (path_join (storage_root settings) "audio")
                    (job_id +:+ ".wav")) = Ok audio_file
    /\ transcriber components audio_file = Ok transcript
    /\ detector components (Job.source job) = Ok detections
    /\ summariser components transcript detections =
       Ok (PipelineResult.summary result)
    /\ PipelineResult.timeline result =
       build_timeline transcript detections window
    /\ PipelineResult.analytics result =
       build_analytics_bundle transcript detections window None
    /\ AnalyticsBundle.co_occurrence (PipelineResult.analytics result) =
       compute_co_occurrence (PipelineResult.timeline result).
Proof.
  destruct w as [js hs ls fs wp n al]. intros E. run_steps_in E.
  cbv zeta. cbn [jobs].
  destruct (js !! job_id) as [job|]; [| discriminate E].
  destruct (audio_extractor components _ _) as [audio_file|e] eqn:Ea;
    [| discriminate E].
  destruct (transcriber components _) as [transcript|e] eqn:Et;
    [| discriminate E].
  destruct (detector components _) as [detections|e] eqn:Ed;
    [| discriminate E].
  destruct (summariser components _ _) as [summary|e] eqn:Es;
    [| discriminate E].
  injection E as <-. cbn [PipelineResult.transcript PipelineResult.detections
    PipelineResult.timeline PipelineResult.analytics PipelineResult.summary].
  exists job, audio_file. repeat (split; [first [reflexivity | assumption] |]).
  split; [apply build_analytics_bundle_own_timeline |].
  rewrite build_analytics_bundle_own_timeline. reflexivity.
Qed.

(** X5. The log rows of a run are the stage messages, in order, up to the
    stage that raised: all five when the run returns, at least the first
    when the job is in the table, none when it is not. *)
Theorem _run_pipeline_log_trace (components : PipelineComponents)
    (job_id : string) (w : World) :
  let w' := snd (_run_pipeline settings components job_id w) in
  exists rows n,
    job_logs w' = job_logs w ++ rows
    /\ List.map JobLog.message rows = List.firstn n stage_messages
    /\ n <= 5
    /\ (forall result,
          fst (_run_pipeline settings components job_id w) = Ok result ->
          n = 5)
    /\ (jobs w !! job_id = None <-> n = 0).
Proof.
  destruct w as [js hs ls fs wp n al]. run_steps.
  destruct (js !! job_id) as [job|].
  2: { exists [], 0. rewrite List.app_nil_r.
       repeat split; try reflexivity; try lia; try discriminate. }
  destruct (audio_extractor components _ _) as [audio_file|e].
  2: { eexists _, 1. split; [reflexivity |].
       repeat split; try reflexivity; try lia; try discriminate. }
  destruct (transcriber components _) as [transcript|e].
  2: { eexists _, 2. rewrite <- !List.app_assoc. split; [reflexivity |].
       repeat split; try reflexivity; try lia; try discriminate. }
  destruct (detector components _) as [detections|e].
  2: { eexists _, 3. rewrite <- !List.app_assoc. split; [reflexivity |].
       repeat split; try reflexivity; try lia; try discriminate. }
  destruct (summariser components _ _) as [summary|e].
  all: eexists _, 5; rewrite <- !List.app_assoc; (split; [reflexivity |]);
    repeat split; try reflexivity; try lia; try discriminate.
Qed.

(** X6. A stage that raises ends the run: the stages after it are not
    called, so two sets of components that agree up to the stage that
    raises give the same run. *)
Theorem _run_pipeline_stops_at_failure (c c' : PipelineComponents)
    (job_id : string) (w : World) (job : Job.t) (exc : exn) :
  jobs w !! job_id = Some job ->
  let source := Job.source job in
  let audio_path :=
    path_join (path_join (storage_root settings) "audio")
              (job_id +:+ ".wav") in
  (audio_extractor c source audio_path = Raise exc
   /\ audio_extractor c' source audio_path = Raise exc)
  \/ (exists audio_file,
        audio_extractor c source audio_path = Ok audio_file
        /\ audio_extractor c' source audio_path = Ok audio_file
        /\ ((transcriber c audio_file = Raise exc
             /\ transcriber c' audio_file = Raise exc)
            \/ (exists transcript,
                  transcriber c audio_file = Ok transcript
                  /\ transcriber c' audio_file = Ok transcript
                  /\ detector c source = Raise exc
                  /\ detector c' source = Raise exc))) ->
  _run_pipeline settings c job_id w = _run_pipeline settings c' job_id w
  /\ fst (_run_pipeline settings c job_id w) = Raise exc.
Proof.
  destruct w as [js hs ls fs wp n al]. cbn [jobs]. intros H. cbv zeta.
  intros C. run_steps. rewrite H.
  destruct C as [[E E']|(audio_file & E & E' & C)].
  - rewrite E, E'. split; reflexivity.
  - rewrite E, E'. destruct C as [[T T']|(transcript & T & T' & D & D')].
    + rewrite T, T'. split; reflexivity.
    + rewrite T, T', D, D'. split; reflexivity.
Qed.
End RunPipelineMore.

(** [create_job] on an id that is not in the table. *)
Lemma create_job_unused_id (uuid : string) (input_type : JobInputType)
    (source : string) (w : World) :
  jobs w !! uuid = None ->
  let job := Job.mk uuid input_type source PENDING (now w) (now w)
                    None None in
  create_job uuid input_type source w =
  (Ok job,
   mkWorld (<[uuid := job]> (jobs w)) (history w ++ [job])
           (job_logs w ++
            [JobLog.mk (Some (S (List.length (job_logs w)))) uuid
                       (S (now w)) "INFO"
                       ("Job created for " +:+ JobInputType_value input_type)])
           (files w) (write_protected w) (S (S (now w))) (app_log w)).
Proof.
  destruct w as [js hs ls fs wp n al]. cbn [jobs]. intros H.
  cbv beta iota zeta delta
    [create_job bind ret raise utcnow session_get commit add_job_log
     fst snd jobs history job_logs files write_protected now app_log].
  rewrite H. reflexivity.
Qed.

Section LifeCycle.
Context {L : StrLib} {O : SetOrder}.
Variable settings : Settings.
Variable components : PipelineComponents.

(** X7. A job that is created and then processed, whatever the components
    do: [process] returns; the versions of the row that were committed are
    a pending one, a processing one and a completed or failed one, in this
    order; each satisfies the invariant of a job record; the row keeps the
    source and the input type it was created with; the other rows of the
    table are as they were. *)
Theorem created_job_life_cycle (uuid : string) (input_type : JobInputType)
    (source : string) (w : World) :
  jobs w !! uuid = None ->
  let w1 := snd (create_job uuid input_type source w) in
  let w2 := snd (process settings components uuid w1) in
  fst (process settings components uuid w1) = Ok tt
  /\ exists j0 j1 j2,
       history w2 = history w ++ [j0; j1; j2]
       /\ Job.status j0 = PENDING /\ Job.status j1 = PROCESSING
       /\ (Job.status j2 = COMPLETED \/ Job.status j2 = FAILED)
       /\ job_invariant j0 /\ job_invariant j1 /\ job_invariant j2
       /\ jobs w2 !! uuid = Some j2
       /\ Job.source j2 = source /\ Job.input_type j2 = input_type
       /\ forall other, other <> uuid -> jobs w2 !! other = jobs w !! other.
Proof.
  intros H. cbv zeta. rewrite (create_job_unused_id uuid _ _ w H).
  cbn [snd]. set (j0 := Job.mk _ _ _ _ _ _ _ _).
  set (w1 := mkWorld _ _ _ _ _ _ _).
  assert (H1 : jobs w1 !! uuid = Some j0) by apply lookup_insert_eq.
  destruct (process_known settings components uuid w1 j0 H1) as (R & _ & K).
  split; [exact R |].
  assert (I0 : job_invariant j0).
  { unfold job_invariant. cbn. repeat split; congruence. }
  assert (I1 : job_invariant (started (now w1) j0)).
  { unfold job_invariant. cbn. repeat split; congruence. }
  assert (Ho : forall (j : Job.t) other,
             other <> uuid ->
             <[uuid := j]> (jobs w1) !! other = jobs w !! other).
  { intros j other Hne. rewrite lookup_insert_ne by congruence.
    subst w1. cbn [jobs]. apply lookup_insert_ne. congruence. }
  destruct (fst (process_try _ _ _ _)) as [[]|exc].
  - destruct K as (t & result & infos & Kj & Kh & _).
    eexists j0, _, _. rewrite Kh, Kj. subst w1. cbn [history].
    rewrite <- List.app_assoc. split; [reflexivity |].
    split; [reflexivity |]. split; [reflexivity |]. split; [left; reflexivity |].
    split; [exact I0 |]. split; [exact I1 |].
    split; [unfold job_invariant; cbn; repeat split; congruence |].
    split; [apply lookup_insert_eq |]. split; [reflexivity |].
    split; [reflexivity |]. apply Ho.
  - destruct K as (t & infos & n & t' & Kj & Kh & _).
    eexists j0, _, _. rewrite Kh, Kj. subst w1. cbn [history].
    rewrite <- List.app_assoc. split; [reflexivity |].
    split; [reflexivity |]. split; [reflexivity |]. split; [right; reflexivity |].
    split; [exact I0 |]. split; [exact I1 |].
    split; [unfold job_invariant; cbn; repeat split; congruence |].
    split; [apply lookup_insert_eq |]. split; [reflexivity |].
    split; [reflexivity |]. apply Ho.
Qed.
End LifeCycle.

(* ===================================================================== *)
(** * Reading the results *)
(* ===================================================================== *)

Lemma path_join_not_empty (path name : string) : path_join path name <> "".
Proof.
  unfold path_join. destruct path as [|c path]; cbn; discriminate.
Qed.

Lemma str_truthy_Some (p : string) : p <> "" -> str_truthy (Some p) = true.
Proof. destruct p; [contradiction | reflexivity]. Qed.

Section Results.
Context {L : StrLib} {O : SetOrder}.
Variable settings : Settings.
Variable components : PipelineComponents.

(** X8. After a run of [process] in which every stage returned and the
    result file could be written, [get_results] answers with the very
    result of the run. *)
Theorem get_results_after_success (job_id : string) (w : World)
    (job : Job.t) (result : PipelineResult.t) :
  jobs w !! job_id = Some job ->
  fst (_run_pipeline settings components job_id
                     (snd (process_enter job_id w))) = Ok result ->
  write_protected w !! path_join (result_dir settings) (job_id +:+ ".json")
    = None ->
  get_results job_id (snd (process settings components job_id w)) =
  Respond result.
Proof.
  intros H E P. rewrite process_unfold.
  rewrite (process_enter_known job_id w job H) in *. cbn [snd] in E.
  set (w1 := mkWorld _ _ _ _ _ _ _) in *.
  assert (H1 : jobs w1 !! job_id = Some (started (now w) job))
    by apply lookup_insert_eq.
  rewrite (process_try_success settings components job_id w1 _ result H1 E P).
  cbn [snd]. unfold get_results. cbn [jobs files].
  rewrite lookup_insert_eq. cbn [completed Job.status Job.result_path
    Job.set_updated_at Job.set_result_path Job.set_status JobStatus_eqb
    negb orb get_or].
  rewrite (str_truthy_Some _ (path_join_not_empty _ _)). cbn [negb].
  rewrite lookup_insert_eq. reflexivity.
Qed.

(** X9. After a run of [process] in which the [try] block raised, whatever
    an earlier run may have left, [get_results] answers 404. *)
Theorem get_results_after_failure (job_id : string) (w : World)
    (job : Job.t) (exc : exn) :
  jobs w !! job_id = Some job ->
  fst (process_try settings components job_id
                   (snd (process_enter job_id w))) = Raise exc ->
  get_results job_id (snd (process settings components job_id w)) =
  HTTPException 404 "Results not available".
Proof.
  intros H E.
  destruct (process_known settings components job_id w job H) as (_ & _ & K).
  rewrite E in K. destruct K as (t & infos & n & t' & Kj & _).
  unfold get_results. rewrite Kj, lookup_insert_eq. reflexivity.
Qed.

(** [get_results] answers with a document only for a job that is in the
    table, is completed, has a result path, and whose file is on disk;
    then the document is the one in that file. *)
Lemma get_results_respond (job_id : string) (w : World)
    (document : PipelineResult.t) :
  get_results job_id w = Respond document <->
  exists job path,
    jobs w !! job_id = Some job
    /\ Job.status job = COMPLETED
    /\ Job.result_path job = Some path /\ path <> ""
    /\ files w !! path = Some document.
Proof.
  unfold get_results. split.
  - destruct (jobs w !! job_id) as [job|]; [| discriminate].
    destruct (Job.status job) eqn:S; cbn; try discriminate.
    destruct (Job.result_path job) as [[|c p]|] eqn:R; cbn; try discriminate.
    destruct (files w !! String c p) as [d|] eqn:F; [| discriminate].
    intros E. injection E as ->. exists job, (String c p).
    repeat split; try assumption. discriminate.
  - intros (job & path & -> & S & R & Hne & F). rewrite S, R.
    destruct path as [|c p]; [contradiction |]. cbn. rewrite F. reflexivity.
Qed.
End Results.

(* ===================================================================== *)
(** * Reading the log *)
(* ===================================================================== *)

Lemma insert_log_perm (x : JobLog.t) (l : list JobLog.t) :
  Permutation (insert_log x l) (x :: l).
Proof.
  induction l as [|y r IH]; simpl; [apply Permutation_refl |].
  destruct (JobLog.created_at x <=? JobLog.created_at y)%nat;
    [apply Permutation_refl |].
  eapply Permutation_trans; [apply perm_skip, IH | apply perm_swap].
Qed.

Lemma order_by_created_at_perm (l : list JobLog.t) :
  Permutation (order_by_created_at l) l.
Proof.
  induction l as [|x l IH]; simpl; [constructor |].
  eapply Permutation_trans; [apply insert_log_perm | apply perm_skip, IH].
Qed.

Lemma insert_log_sorted (x : JobLog.t) (l : list JobLog.t) :
  StronglySorted (fun a b => JobLog.created_at a <= JobLog.created_at b) l ->
  StronglySorted (fun a b => JobLog.created_at a <= JobLog.created_at b)
                 (insert_log x l).
Proof.
  induction l as [|y r IH]; intros S; simpl.
  - constructor; constructor.
  - apply StronglySorted_inv in S as [Sr Fy].
    rewrite List.Forall_forall in Fy.
    destruct (Nat.leb_spec (JobLog.created_at x) (JobLog.created_at y)).
    + constructor; [constructor; [exact Sr | apply List.Forall_forall, Fy] |].
      constructor; [assumption |].
      apply List.Forall_forall. intros z Hz. specialize (Fy z Hz). lia.
    + constructor; [apply IH, Sr |].
      apply List.Forall_forall. intros z Hz.
      apply (Permutation_in _ (insert_log_perm x r)) in Hz.
      destruct Hz as [<-|Hz]; [lia | apply Fy, Hz].
Qed.

Lemma order_by_created_at_sorted (l : list JobLog.t) :
  StronglySorted (fun a b => JobLog.created_at a <= JobLog.created_at b)
                 (order_by_created_at l).
Proof.
  induction l as [|x l IH]; simpl; [constructor |].
  apply insert_log_sorted, IH.
Qed.

(** Rows that are in the order of their times are left as they are. *)
Lemma order_by_created_at_chronological (l : list JobLog.t) :
  chronological l -> order_by_created_at l = l.
Proof.
  induction 1 as [|x l S IH F]; simpl; [reflexivity |].
  rewrite IH. destruct l as [|y r]; [reflexivity |]. simpl.
  apply List.Forall_inv in F.
  destruct (Nat.leb_spec (JobLog.created_at x) (JobLog.created_at y));
    [reflexivity | lia].
Qed.

Lemma chronological_filter (p : JobLog.t -> bool) (l : list JobLog.t) :
  chronological l -> chronological (List.filter p l).
Proof.
  induction 1 as [|x l S IH F]; simpl; [constructor |].
  destruct (p x); [| exact IH]. constructor; [exact IH |].
  rewrite List.Forall_forall in *. intros y Hy.
  apply List.filter_In in Hy. apply F. tauto.
Qed.

Lemma chronological_snoc (l : list JobLog.t) (x : JobLog.t) :
  chronological l ->
  Forall (fun log => JobLog.created_at log < JobLog.created_at x) l ->
  chronological (l ++ [x]).
Proof.
  induction 1 as [|y l S IH F]; intros B; simpl.
  - constructor; constructor.
  - apply List.Forall_cons_iff in B as [By Bl].
    constructor; [apply IH, Bl |].
    apply List.Forall_app. split; [exact F |]. constructor; [exact By |].
    constructor.
Qed.


(** X10. [fetch_job_logs] changes nothing; it returns the rows of the job
    and no other, each once, oldest first. *)
Theorem fetch_job_logs_sorted (job_id : string) (w : World) :
  snd (fetch_job_logs job_id w) = w
  /\ exists rows,
       fst (fetch_job_logs job_id w) = Ok rows
       /\ Permutation rows (rows_of job_id (job_logs w))
       /\ (forall log, In log rows <->
             In log (job_logs w) /\ JobLog.job_id log = job_id)
       /\ StronglySorted
            (fun a b => JobLog.created_at a <= JobLog.created_at b) rows.
Proof.
  split; [reflexivity |]. eexists. split; [reflexivity |].
  split; [apply order_by_created_at_perm |]. split.
  - intros log. split.
    + intros H. apply (Permutation_in _ (order_by_created_at_perm _)) in H.
      apply List.filter_In in H as [H E]. apply String.eqb_eq in E. tauto.
    + intros [H E].
      apply (Permutation_in _ (Permutation_sym (order_by_created_at_perm _))).
      apply List.filter_In. split; [exact H |]. apply String.eqb_eq, E.
  - apply order_by_created_at_sorted.
Qed.

(** X11. When the times of the table strictly increase, [fetch_job_logs]
    returns the rows of the job in the order in which they were added. *)
Theorem fetch_job_logs_in_table_order (job_id : string) (w : World) :
  chronological (job_logs w) ->
  fst (fetch_job_logs job_id w) = Ok (rows_of job_id (job_logs w)).
Proof.
  intros C. unfold fetch_job_logs. cbn [fst]. f_equal.
  apply order_by_created_at_chronological, chronological_filter, C.
Qed.

(** ** The clock and the log *)

Section KeepsLogTimes.
Context {A B : Type}.

Lemma keeps_ret (a : A) : keeps_log_times (ret a).
Proof. intros w H. exact H. Qed.

Lemma keeps_raise (e : exn) : keeps_log_times (@raise A e).
Proof. intros w H. exact H. Qed.

Lemma keeps_call (r : result A) : keeps_log_times (call r).
Proof. intros w H. exact H. Qed.


End KeepsLogTimes.

Lemma keeps_utcnow : keeps_log_times utcnow.
Proof.
  intros [js hs ls fs wp n al] [C F]. split; [exact C |].
  cbn in *. eapply List.Forall_impl; [| exact F]. cbn. intros; lia.
Qed.

Lemma keeps_session_get (job_id : string) :
  keeps_log_times (session_get job_id).
Proof. intros w H. exact H. Qed.

Lemma keeps_commit (job_id : string) (job : Job.t) :
  keeps_log_times (commit job_id job).
Proof. intros [js hs ls fs wp n al] H. exact H. Qed.

Lemma keeps_logger (level msg : string) : keeps_log_times (logger level msg).
Proof. intros [js hs ls fs wp n al] H. exact H. Qed.

Lemma keeps_write_json (path : string) (doc : PipelineResult.t) :
  keeps_log_times (write_json path doc).
Proof.
  intros [js hs ls fs wp n al] H. unfold write_json. cbn [write_protected].
  destruct (wp !! path); exact H.
Qed.

Lemma keeps_add_job_log (job_id message level : string) :
  keeps_log_times (add_job_log job_id message level).
Proof.
  intros [js hs ls fs wp n al] [C F].
  cbv beta iota zeta delta
    [add_job_log bind utcnow fst snd jobs history job_logs files
     write_protected now app_log log_times_ok] in *.
  split.
  - apply chronological_snoc; [exact C |]. exact F.
  - apply List.Forall_app. split.
    + eapply List.Forall_impl; [| exact F]. cbn. intros; lia.
    + constructor; [cbn; lia | constructor].
Qed.

Create HintDb keeps.

#[local] Hint Resolve keeps_ret keeps_raise keeps_call keeps_utcnow
  keeps_session_get keeps_commit keeps_logger keeps_write_json
  keeps_add_job_log : keeps.


Section KeepsPipeline.
Context {L : StrLib} {O : SetOrder}.
Variable settings : Settings.
Variable components : PipelineComponents.



End KeepsPipeline.

(* ===================================================================== *)
(** * The YouTube path *)
(* ===================================================================== *)

Section YouTubeFacts.
Context {L : StrLib} {O : SetOrder}.
Variable settings : Settings.
Variable components : PipelineComponents.
Variable upload_dir_name : string.

Ltac yt_steps :=
  cbv beta iota zeta delta
    [_download_and_process_youtube youtube_try youtube_except
     bind try_except ret raise call utcnow session_get commit
     add_job_log fst snd
     jobs history job_logs files write_protected now app_log].

(** X13. When the download raises, the exception is recorded and raised
    again: the job goes to failed without ever being processing, with the
    message of the exception; its source and its result path are left as
    they were; two log rows are added, the second of level ERROR; nothing
    is written to disk. *)
Theorem youtube_download_failure (outcome : youtube_outcome)
    (url job_id : string) (w : World) (job : Job.t) (exc : exn) :
  jobs w !! job_id = Some job ->
  youtube_download settings upload_dir_name outcome job_id = Raise exc ->
  let w' :=
    snd (_download_and_process_youtube settings components upload_dir_name
           outcome url job_id w) in
  fst (_download_and_process_youtube settings components upload_dir_name
         outcome url job_id w) = Raise exc
  /\ exists job' first second,
       jobs w' = <[job_id := job']> (jobs w)
       /\ history w' = history w ++ [job']
       /\ Job.status job' = FAILED
       /\ Job.error_message job' = Some (str_exc exc)
       /\ Job.source job' = Job.source job
       /\ Job.result_path job' = Job.result_path job
       /\ job_logs w' = job_logs w ++ [first; second]
       /\ JobLog.message first = "Downloading YouTube video"
       /\ JobLog.level second = "ERROR"
       /\ JobLog.message second =
          "YouTube download failed: " +:+ str_exc exc
       /\ files w' = files w.
Proof.
  destruct w as [js hs ls fs wp n al]. cbn [jobs]. intros H E.
  yt_steps. rewrite E. yt_steps. rewrite H.
  split; [reflexivity |]. rewrite <- List.app_assoc. eexists _, _, _.
  split; [reflexivity |]. split; [reflexivity |].
  cbn. repeat split.
Qed.

(** X14. When the download succeeds for a job that is in the table, the
    new source is committed before the pipeline runs, the call returns,
    and the job ends completed or failed with the downloaded file as its
    source. *)
Theorem youtube_download_success (url job_id : string) (w : World)
    (job : Job.t) :
  jobs w !! job_id = Some job ->
  let target :=
    path_join (upload_dir settings upload_dir_name) (job_id +:+ ".mp4") in
  let w' :=
    snd (_download_and_process_youtube settings components upload_dir_name
           downloaded url job_id w) in
  fst (_download_and_process_youtube settings components upload_dir_name
         downloaded url job_id w) = Ok tt
  /\ exists j0 j1 j2,
       history w' = history w ++ [j0; j1; j2]
       /\ Job.source j0 = target /\ Job.status j0 = Job.status job
       /\ Job.status j1 = PROCESSING
       /\ (Job.status j2 = COMPLETED \/ Job.status j2 = FAILED)
       /\ Job.source j2 = target
       /\ jobs w' !! job_id = Some j2.
Proof.
  destruct w as [js hs ls fs wp n al]. cbn [jobs history]. intros H.
  yt_steps. cbn [youtube_download]. rewrite H. yt_steps.
  set (j0 := Job.set_updated_at _ _).
  set (w1 := mkWorld _ _ _ _ _ _ _).
  assert (H1 : jobs w1 !! job_id = Some j0) by apply lookup_insert_eq.
  destruct (process_known settings components job_id w1 j0 H1) as (R & _ & K).
  destruct (process settings components job_id w1)
    as [[[]|e] [js2 hs2 ls2 fs2 wp2 n2 al2]];
    cbn [fst snd jobs history] in *; [| discriminate R].
  split; [reflexivity |].
  destruct (fst (process_try _ _ _ _)) as [[]|exc].
  - destruct K as (t & result & infos & Kj & Kh & _).
    eexists j0, _, _. rewrite Kh, Kj. subst w1. cbn [history].
    rewrite <- List.app_assoc. split; [reflexivity |].
    cbn. repeat split; try tauto. apply lookup_insert_eq.
  - destruct K as (t & infos & m & t' & Kj & Kh & _).
    eexists j0, _, _. rewrite Kh, Kj. subst w1. cbn [history].
    rewrite <- List.app_assoc. split; [reflexivity |].
    cbn. repeat split; try tauto. apply lookup_insert_eq.
Qed.

(** X15. For a job id that is not in the table the call raises whatever
    the download did (the [ValueError] of [process] when the download
    succeeded); no row is added to the job table; the last log row is of
    level ERROR and starts with the words "YouTube download failed". The
    log rows are written although their job does not exist: as everywhere
    here, the database does not enforce the foreign key of [JobLog], which
    is how the default SQLite database behaves. *)
Theorem youtube_unknown_job (outcome : youtube_outcome)
    (url job_id : string) (w : World) :
  jobs w !! job_id = None ->
  let w' :=
    snd (_download_and_process_youtube settings components upload_dir_name
           outcome url job_id w) in
  let exc :=
    match youtube_download settings upload_dir_name outcome job_id with
    | Raise e => e
    | Ok _ => ValueError ("Job " +:+ job_id +:+ " not found")
    end in
  fst (_download_and_process_youtube settings components upload_dir_name
         outcome url job_id w) = Raise exc
  /\ jobs w' = jobs w /\ history w' = history w /\ files w' = files w
  /\ exists earlier last,
       job_logs w' = job_logs w ++ earlier ++ [last]
       /\ JobLog.level last = "ERROR"
       /\ JobLog.message last = "YouTube download failed: " +:+ str_exc exc.
Proof.
  destruct w as [js hs ls fs wp n al]. cbn [jobs history files job_logs].
  intros H. yt_steps.
  destruct (youtube_download settings upload_dir_name outcome job_id)
    as [target|e].
  - yt_steps. rewrite H. yt_steps.
    set (w1 := mkWorld _ _ _ _ _ _ _).
    assert (H1 : jobs w1 !! job_id = None) by exact H.
    destruct (process_unknown settings components job_id w1 H1)
      as (R & Kj & Kh & Kl & Kf).
    destruct (process settings components job_id w1)
      as [[[]|e] [js2 hs2 ls2 fs2 wp2 n2 al2]];
      cbn [fst snd] in *; [discriminate R |].
    injection R as ->. subst w1.
    cbn [jobs history files job_logs] in *. subst js2 hs2 ls2 fs2.
    yt_steps. rewrite H. yt_steps.
    repeat (split; [reflexivity |]).
    rewrite <- !List.app_assoc. eexists (_ :: _ :: nil), _.
    split; [reflexivity |]. split; reflexivity.
  - yt_steps. rewrite H. yt_steps.
    repeat (split; [reflexivity |]).
    rewrite <- !List.app_assoc. eexists [_], _.
    split; [reflexivity |]. split; reflexivity.
Qed.
End YouTubeFacts.

(* ===================================================================== *)
(** * The Whisper transcriber *)
(* ===================================================================== *)

(** X16. Whenever the model returns, [WhisperTranscriber.transcribe]
    returns a transcript that is not empty: one segment per segment of the
    model, in order, with the same times and the stripped text; or, when
    the model has no segment, one segment from 0.0 to the duration (0.0 if
    there is none) with the whole text (empty if there is none). *)
Theorem WhisperTranscriber_transcribe_segments
    (whisper : string -> result WhisperResult.t) (strip : string -> string)
    (audio_path : string) (result : WhisperResult.t) :
  whisper audio_path = Ok result ->
  let segments := get_or (WhisperResult.segments result) [] in
  exists transcript,
    WhisperTranscriber_transcribe whisper strip audio_path = Ok transcript
    /\ transcript <> []
    /\ (segments <> [] ->
        Forall2
          (fun s t =>
             TranscriptSegment.start t = WhisperSegment.start s
             /\ TranscriptSegment.end_ t = WhisperSegment.end_ s
             /\ TranscriptSegment.text t = strip (WhisperSegment.text s))
          segments transcript)
    /\ (segments = [] ->
        transcript =
        [TranscriptSegment.mk
           0.0 (get_or (WhisperResult.duration result) 0.0%float)
           (get_or (WhisperResult.text result) "")]).
Proof.
  intros E. cbv zeta. unfold WhisperTranscriber_transcribe. rewrite E.
  destruct (get_or (WhisperResult.segments result) []) as [|s r];
    cbn [List.map truthy].
  - eexists. split; [reflexivity |]. split; [discriminate |].
    split; [intros C; contradiction | reflexivity].
  - eexists. split; [reflexivity |]. split; [discriminate |].
    split; [| discriminate]. intros _.
    change (TranscriptSegment.mk (WhisperSegment.start s)
              (WhisperSegment.end_ s) (strip (WhisperSegment.text s))
            :: List.map _ r)
      with (List.map
              (fun s => TranscriptSegment.mk (WhisperSegment.start s)
                          (WhisperSegment.end_ s)
                          (strip (WhisperSegment.text s))) (s :: r)).
    apply Forall2_map_r. intros x _. cbn. repeat split.
Qed.

(* ===================================================================== *)
(** * Saving an upload *)
(* ===================================================================== *)

Lemma read_parts (size : N) (stream : list Byte.byte) :
  fst (read size stream) ++ snd (read size stream) = stream.
Proof.
  revert size. induction stream as [|b rest IH]; intros size; cbn [read].
  - reflexivity.
  - destruct (size =? 0)%N; [reflexivity |].
    specialize (IH (N.pred size)).
    destruct (read (N.pred size) rest) as [chunk remaining].
    cbn [fst snd] in *. cbn. rewrite IH. reflexivity.
Qed.

Lemma read_some (size : N) (b : Byte.byte) (rest : list Byte.byte) :
  size <> 0%N -> fst (read size (b :: rest)) <> [].
Proof.
  intros H. cbn [read]. apply N.eqb_neq in H. rewrite H.
  destruct (read (N.pred size) rest). cbn. discriminate.
Qed.

Section FilesFacts.
Variable max_upload_size_mb : Z.
Variable default_upload_dir : string.
Variable target_in : string -> string -> string.
Variable uuid_sibling : string -> string.

(** What the loop does with a stream, when [total_written] bytes have
    gone before. *)
Lemma write_chunks_outcome (fuel : nat) (max_bytes total_written : Z)
    (stream buffer : list Byte.byte) :
  List.length stream < fuel ->
  let size := Z.of_nat (List.length stream) in
  let outcome :=
    write_chunks max_upload_size_mb fuel max_bytes total_written
                 stream buffer in
  (stream = [] -> outcome = (Ok tt, buffer))
  /\ (stream <> [] -> (total_written + size <= max_bytes)%Z ->
      outcome = (Ok tt, buffer ++ stream))
  /\ (stream <> [] -> (max_bytes < total_written + size)%Z ->
      fst outcome = Raise (too_large max_upload_size_mb)).
Proof.
  revert total_written stream buffer.
  induction fuel as [|fuel IH]; intros total stream buffer Hf; [lia |].
  cbv zeta. cbn [write_chunks].
  destruct stream as [|b rest].
  { cbn. repeat split; intros; congruence. }
  pose proof (read_parts (1024 * 1024) (b :: rest)) as P.
  pose proof (read_some (1024 * 1024) b rest) as Q.
  destruct (read (1024 * 1024) (b :: rest)) as [chunk remaining].
  cbn [fst snd] in P, Q.
  assert (Hc : chunk <> []) by (apply Q; discriminate).
  destruct chunk as [|c chunk]; [contradiction |]. cbn [truthy negb].
  assert (Hl : List.length (b :: rest) =
               List.length (c :: chunk) + List.length remaining).
  { rewrite <- P, List.length_app. reflexivity. }
  split; [discriminate |].
  destruct (Z.ltb_spec max_bytes (total + Z.of_nat (List.length (c :: chunk))))
    as [Hgt|Hle].
  - split; [intros _ Hs; lia | intros; reflexivity].
  - assert (Hf' : List.length remaining < fuel) by (cbn in *; lia).
    destruct (IH (total + Z.of_nat (List.length (c :: chunk)))%Z
                 remaining (buffer ++ c :: chunk) Hf') as (I1 & I2 & I3).
    destruct remaining as [|d remaining].
    + rewrite I1 by reflexivity. rewrite List.app_nil_r in P.
      rewrite <- P.
      split; [reflexivity |]. intros _ Hs. cbn [List.length] in *. lia.
    + split.
      * intros _ Hs. rewrite I2; [| discriminate | lia].
        rewrite <- List.app_assoc, P. reflexivity.
      * intros _ Hs. apply I3; [discriminate | lia].
Qed.

(** X17. [save_upload] accepts an upload exactly when it is empty or not
    larger than the limit of [max_upload_size_mb] MiB. An accepted upload
    is on disk, byte for byte, at the path returned. A rejected one raises
    [ValueError] and leaves no file at the target. Either way no other
    path of the disk changes, and the target is the wanted path when that
    is free. *)
Theorem save_upload_size_limit (upload : UploadFile.t)
    (destination : option string) (disk : gmap string (list Byte.byte)) :
  let max_bytes := (max_upload_size_mb * 1024 * 1024)%Z in
  let size := Z.of_nat (List.length (UploadFile.file upload)) in
  let wanted :=
    target_in
      (get_or destination default_upload_dir)
      (if str_truthy (UploadFile.filename upload)
       then get_or (UploadFile.filename upload) "" else "upload.mp4") in
  let target := _unique_target uuid_sibling disk wanted in
  let outcome :=
    save_upload max_upload_size_mb default_upload_dir target_in
                uuid_sibling upload destination disk in
  (size = 0%Z \/ (size <= max_bytes)%Z ->
   outcome = (Ok target, <[target := UploadFile.file upload]> disk))
  /\ (size <> 0%Z -> (max_bytes < size)%Z ->
      outcome = (Raise (too_large max_upload_size_mb), delete target disk))
  /\ (forall p, p <> target -> snd outcome !! p = disk !! p)
  /\ (disk !! wanted = None -> target = wanted).
Proof.
  cbv zeta. unfold save_upload.
  replace (match destination with
           | Some d => d
           | None => default_upload_dir
           end) with (get_or destination default_upload_dir)
    by (destruct destination; reflexivity).
  set (target := _unique_target uuid_sibling disk _).
  set (stream := UploadFile.file upload).
  destruct (write_chunks_outcome (S (List.length stream))
              (max_upload_size_mb * 1024 * 1024) 0 stream []
              (Nat.lt_succ_diag_r _)) as (W1 & W2 & W3).
  cbn [app] in *.
  split; [| split; [| split]].
  - intros Hs. destruct stream as [|b rest] eqn:Es.
    + rewrite W1 by reflexivity. reflexivity.
    + rewrite W2; [reflexivity | discriminate |].
      destruct Hs as [Hs|Hs]; [cbn in Hs; lia | lia].
  - intros Hn Hs.
    assert (Hne : stream <> []) by (intros C; rewrite C in Hn; cbn in Hn; lia).
    specialize (W3 Hne ltac:(lia)).
    destruct (write_chunks _ _ _ _ _ _) as [[[]|e] buffer];
      cbn [fst] in W3; [discriminate |].
    injection W3 as ->. rewrite delete_insert_eq. reflexivity.
  - intros p Hne.
    destruct (write_chunks _ _ _ _ _ _) as [[[]|e] buffer]; cbn [snd].
    + apply lookup_insert_ne. congruence.
    + rewrite delete_insert_eq. apply lookup_delete_ne. congruence.
  - intros Hw. subst target. unfold _unique_target. rewrite Hw. reflexivity.
Qed.
End FilesFacts.

(* ===================================================================== *)
(** * More about the analytics engine *)
(* ===================================================================== *)

Section AnalyticsMore.
Context {O : SetOrder}.

Lemma set_elements_nil : set_elements [] = [].
Proof.
  apply Permutation_nil, Permutation_sym. exact (set_elements_perm []).
Qed.

Lemma entry_combos_no_objects (entry : TimelineEntry.t) :
  TimelineEntry.objects entry = [] -> entry_combos entry = [].
Proof.
  intros E. unfold entry_combos, positive_labels. rewrite E. cbn.
  rewrite set_elements_nil. reflexivity.
Qed.

(** X18. Without detections every entry of the timeline has the empty
    histogram, and the bundle has no object frequency and no
    co-occurrence, whatever the transcript. *)
Theorem no_detections_no_objects {L : StrLib}
    (transcript : list TranscriptSegment.t) (window : float) :
  Forall (fun entry => TimelineEntry.objects entry = [])
         (build_timeline transcript [] window)
  /\ AnalyticsBundle.object_frequency
       (build_analytics_bundle transcript [] window None) = []
  /\ AnalyticsBundle.co_occurrence
       (build_analytics_bundle transcript [] window None) = [].
Proof.
  assert (F : Forall (fun entry => TimelineEntry.objects entry = [])
                     (build_timeline transcript [] window)).
  { rewrite build_timeline_map. apply List.Forall_map.
    apply List.Forall_forall. intros segment _. reflexivity. }
  split; [exact F |]. split; [reflexivity |].
  cbn [build_analytics_bundle AnalyticsBundle.co_occurrence].
  rewrite compute_co_occurrence_ranking.
  replace (pairs_seen (build_timeline transcript [] window))
    with (@nil (list string)); [reflexivity |].
  unfold pairs_seen. induction F as [|entry tl E F IH]; [reflexivity |].
  cbn. rewrite (entry_combos_no_objects entry E), <- IH. reflexivity.
Qed.

(** X19. Every count [compute_co_occurrence] emits is at least 1 and at
    most the number of entries of the timeline. *)
Theorem co_occurrence_count_bounds (timeline : list TimelineEntry.t) :
  Forall
    (fun e =>
       (1 <= CoOccurrenceEntry.count e
        <= Z.of_nat (List.length timeline))%Z)
    (compute_co_occurrence timeline).
Proof.
  rewrite compute_co_occurrence_ranking. apply List.Forall_map.
  apply List.Forall_forall. intros [k n] H. cbn.
  apply ranking_In in H as [Hk ->].
  pose proof (proj2 (occurrences_pos list_string_dec _ _) Hk) as Hpos.
  unfold pairs_seen in Hk. apply List.in_flat_map in Hk as (entry & _ & Hk).
  apply entry_combos_In in Hk as (a & b & -> & E & _ & _).
  rewrite (pairs_seen_count timeline a b E) in *. split; [lia |].
  unfold co_occurrences. apply inj_le, List.filter_length_le.
Qed.
End AnalyticsMore.

(** X20. The timeline and the sentiment trend of one transcript are
    aligned: entry by entry they carry the same timestamps, whatever the
    detections and the window. *)
Theorem timeline_aligned_with_sentiment {L : StrLib} {O : SetOrder}
    (transcript : list TranscriptSegment.t)
    (detections : list ObjectDetection.t) (window : float) :
  List.map TimelineEntry.timestamp
           (build_timeline transcript detections window) =
  List.map SentimentPoint.timestamp (compute_sentiment transcript)
  /\ List.length (build_timeline transcript detections window) =
     List.length transcript.
Proof.
  rewrite build_timeline_map, compute_sentiment_map, !List.map_map.
  split; [reflexivity | apply List.length_map].
Qed.

(* ===================================================================== *)
(** * The further properties at concrete inputs *)
(* ===================================================================== *)

(** [save_upload] under a limit of 1 MiB, of 0 and of -1 MiB, on a free
    and on a taken path. *)
Example save_upload_scenarios :
  let save limit upload :=
    save_upload limit "/srv/via/storage/uploads"
                (fun directory name => path_join directory name)
                (fun path => path +:+ ".1") upload None in
  let clip := UploadFile.mk (Some "a.mp4") [Byte.x78; Byte.x79] in
  let nameless := UploadFile.mk None [] in
  save 1%Z clip ∅ =
    (Ok "/srv/via/storage/uploads/a.mp4",
     {[ "/srv/via/storage/uploads/a.mp4" := [Byte.x78; Byte.x79] ]})
  /\ save 0%Z clip ∅ =
     (Raise (ValueError "Uploaded file exceeds maximum size of 0 MB"), ∅)
  /\ fst (save 1%Z clip {[ "/srv/via/storage/uploads/a.mp4" := [] ]}) =
     Ok "/srv/via/storage/uploads/a.mp4.1"
  /\ fst (save (-1)%Z nameless ∅) = Ok "/srv/via/storage/uploads/upload.mp4".
Proof. cbv zeta. repeat split; vm_compute; reflexivity. Qed.

(** X1 at a submitted job and the stub components. *)
Lemma process_success_witness :
  exists result,
    jobs created_world !! "job-1" = Some created_job
    /\ fst (_run_pipeline example_settings stub_components "job-1"
              (snd (process_enter "job-1" created_world))) = Ok result
    /\ write_protected created_world
         !! path_join (result_dir example_settings) ("job-1" +:+ ".json")
       = None
    /\ fst (process example_settings stub_components "job-1" created_world)
       = Ok tt
    /\ files (snd (process example_settings stub_components "job-1"
                     created_world))
         !! path_join (result_dir example_settings) ("job-1" +:+ ".json")
       = Some result.
Proof.
  assert (H : jobs created_world !! "job-1" = Some created_job)
    by (vm_compute; reflexivity).
  assert (E : {result |
                fst (_run_pipeline example_settings stub_components "job-1"
                       (snd (process_enter "job-1" created_world))) =
                Ok result})
    by (eexists; vm_compute; reflexivity).
  assert (P : write_protected created_world
                !! path_join (result_dir example_settings)
                             ("job-1" +:+ ".json") = None)
    by (vm_compute; reflexivity).
  destruct E as [result E]. exists result.
  split; [exact H |]. split; [exact E |]. split; [exact P |].
  destruct (process_success example_settings stub_components "job-1"
              created_world created_job result H E P) as (R & _ & F & _).
  split; [exact R | exact F].
Defined.

(** X2 at a submitted job whose result file is write-protected. *)
Lemma process_result_not_writable_witness :
  let msg :=
    "[Errno 13] Permission denied: '/srv/via/storage/results/job-1.json'" in
  exists result,
    jobs read_only_world !! "job-1" = Some created_job
    /\ fst (_run_pipeline example_settings stub_components "job-1"
              (snd (process_enter "job-1" read_only_world))) = Ok result
    /\ write_protected read_only_world
         !! path_join (result_dir example_settings) ("job-1" +:+ ".json")
       = Some msg
    /\ files (snd (process example_settings stub_components "job-1"
                     read_only_world)) = files read_only_world
    /\ exists job',
         jobs (snd (process example_settings stub_components "job-1"
                      read_only_world)) !! "job-1" = Some job'
         /\ Job.status job' = FAILED
         /\ Job.error_message job' = Some msg.
Proof.
  cbv zeta.
  assert (H : jobs read_only_world !! "job-1" = Some created_job)
    by (vm_compute; reflexivity).
  assert (E : {result |
                fst (_run_pipeline example_settings stub_components "job-1"
                       (snd (process_enter "job-1" read_only_world))) =
                Ok result})
    by (eexists; vm_compute; reflexivity).
  assert (P : write_protected read_only_world
                !! path_join (result_dir example_settings)
                             ("job-1" +:+ ".json") =
              Some "[Errno 13] Permission denied: '/srv/via/storage/results/job-1.json'")
    by (vm_compute; reflexivity).
  destruct E as [result E]. exists result.
  split; [exact H |]. split; [exact E |]. split; [exact P |].
  destruct (process_result_not_writable example_settings stub_components
              "job-1" read_only_world created_job result _ H E P)
    as (_ & F & job' & Hj & Hs & Hm & _).
  split; [exact F |]. exists job'. repeat split; assumption.
Defined.

(** X4 at a submitted job and the stub components. *)
Lemma _run_pipeline_result_witness :
  exists result,
    fst (_run_pipeline example_settings stub_components "job-1"
                       created_world) = Ok result
    /\ PipelineResult.timeline result =
       build_timeline (PipelineResult.transcript result)
                      (PipelineResult.detections result)
                      (timeline_window example_settings)
    /\ PipelineResult.analytics result =
       build_analytics_bundle (PipelineResult.transcript result)
                              (PipelineResult.detections result)
                              (timeline_window example_settings) None.
Proof.
  assert (E : {result |
                fst (_run_pipeline example_settings stub_components "job-1"
                       created_world) = Ok result})
    by (eexists; vm_compute; reflexivity).
  destruct E as [result E]. exists result. split; [exact E |].
  destruct (_run_pipeline_result example_settings stub_components "job-1"
              created_world result E)
    as (job & audio_file & _ & _ & _ & _ & _ & T & A & _).
  split; [exact T | exact A].
Defined.

(** X6 at the interface class [Transcriber] as transcriber. *)
Lemma _run_pipeline_stops_at_failure_witness :
  jobs created_world !! "job-1" = Some created_job
  /\ _run_pipeline example_settings abstract_transcriber_components "job-1"
                   created_world =
     _run_pipeline example_settings
       {| audio_extractor := AudioExtractor_extract ffmpeg_ok;
          transcriber := Transcriber_transcribe;
          detector := ObjectDetector_detect;
          summariser := Summariser_summarise |}
       "job-1" created_world
  /\ fst (_run_pipeline example_settings abstract_transcriber_components
                        "job-1" created_world) = Raise NotImplementedError.
Proof.
  assert (H : jobs created_world !! "job-1" = Some created_job)
    by (vm_compute; reflexivity).
  split; [exact H |].
  apply (_run_pipeline_stops_at_failure example_settings
           abstract_transcriber_components _ "job-1" created_world
           created_job NotImplementedError H).
  right. eexists. split; [vm_compute; reflexivity |].
  split; [vm_compute; reflexivity |]. left. split; reflexivity.
Defined.

(** X7 at the first job of an empty table. *)
Lemma created_job_life_cycle_witness :
  jobs empty_world !! "job-1" = None
  /\ fst (process example_settings stub_components "job-1" created_world)
     = Ok tt.
Proof.
  assert (H : jobs empty_world !! "job-1" = None) by reflexivity.
  split; [exact H |].
  exact (proj1 (created_job_life_cycle example_settings stub_components
                  "job-1" UPLOAD "/srv/via/storage/uploads/a.mp4"
                  empty_world H)).
Defined.

(** X8 at a submitted job and the stub components. *)
Lemma get_results_after_success_witness :
  exists result,
    jobs created_world !! "job-1" = Some created_job
    /\ fst (_run_pipeline example_settings stub_components "job-1"
              (snd (process_enter "job-1" created_world))) = Ok result
    /\ write_protected created_world
         !! path_join (result_dir example_settings) ("job-1" +:+ ".json")
       = None
    /\ get_results "job-1"
         (snd (process example_settings stub_components "job-1"
                 created_world)) = Respond result.
Proof.
  assert (H : jobs created_world !! "job-1" = Some created_job)
    by (vm_compute; reflexivity).
  assert (E : {result |
                fst (_run_pipeline example_settings stub_components "job-1"
                       (snd (process_enter "job-1" created_world))) =
                Ok result})
    by (eexists; vm_compute; reflexivity).
  assert (P : write_protected created_world
                !! path_join (result_dir example_settings)
                             ("job-1" +:+ ".json") = None)
    by (vm_compute; reflexivity).
  destruct E as [result E]. exists result.
  split; [exact H |]. split; [exact E |]. split; [exact P |].
  exact (get_results_after_success example_settings stub_components "job-1"
           created_world created_job result H E P).
Defined.

(** X9 at a completed job that is processed again and fails. *)
Lemma get_results_after_failure_witness :
  let w1 := snd (process example_settings stub_components "job-1"
                         created_world) in
  (exists job, jobs w1 !! "job-1" = Some job /\ Job.status job = COMPLETED)
  /\ fst (process_try example_settings no_input_components "job-1"
            (snd (process_enter "job-1" w1))) =
     Raise (RuntimeError no_input_message)
  /\ get_results "job-1"
       (snd (process example_settings no_input_components "job-1" w1)) =
     HTTPException 404 "Results not available".
Proof.
  cbv zeta.
  assert (H : {job |
                jobs (snd (process example_settings stub_components "job-1"
                             created_world)) !! "job-1" = Some job
                /\ Job.status job = COMPLETED}).
  { eexists. split; [vm_compute; reflexivity | reflexivity]. }
  assert (E : fst (process_try example_settings no_input_components "job-1"
                     (snd (process_enter "job-1"
                             (snd (process example_settings stub_components
                                     "job-1" created_world))))) =
              Raise (RuntimeError no_input_message))
    by (vm_compute; reflexivity).
  destruct H as [job [H S]].
  split; [exists job; split; assumption |]. split; [exact E |].
  exact (get_results_after_failure example_settings no_input_components
           "job-1" _ job _ H E).
Defined.

(** X11 at the log of a processed job. *)
Lemma fetch_job_logs_in_table_order_witness :
  let w := snd (process example_settings stub_components "job-1"
                        created_world) in
  chronological (job_logs w)
  /\ fst (fetch_job_logs "job-1" w) = Ok (rows_of "job-1" (job_logs w)).
Proof.
  cbv zeta.
  assert (H : chronological
                (job_logs (snd (process example_settings stub_components
                                  "job-1" created_world)))).
  { unfold chronological. vm_compute. repeat constructor. }
  split; [exact H |].
  exact (fetch_job_logs_in_table_order "job-1" _ H).
Defined.


(** X13 at a video without an MP4 stream. *)
Lemma youtube_download_failure_witness :
  jobs created_world !! "job-1" = Some created_job
  /\ youtube_download example_settings "uploads" no_stream "job-1" =
     Raise (RuntimeError "No compatible MP4 stream found")
  /\ fst (_download_and_process_youtube example_settings stub_components
            "uploads" no_stream "https://youtu.be/x" "job-1" created_world) =
     Raise (RuntimeError "No compatible MP4 stream found").
Proof.
  assert (H : jobs created_world !! "job-1" = Some created_job)
    by (vm_compute; reflexivity).
  assert (E : youtube_download example_settings "uploads" no_stream "job-1" =
              Raise (RuntimeError "No compatible MP4 stream found"))
    by reflexivity.
  split; [exact H |]. split; [exact E |].
  exact (proj1 (youtube_download_failure example_settings stub_components
                  "uploads" no_stream "https://youtu.be/x" "job-1"
                  created_world created_job _ H E)).
Defined.

(** X14 at a submitted job and the stub components. *)
Lemma youtube_download_success_witness :
  jobs created_world !! "job-1" = Some created_job
  /\ fst (_download_and_process_youtube example_settings stub_components
            "uploads" downloaded "https://youtu.be/x" "job-1" created_world) =
     Ok tt.
Proof.
  assert (H : jobs created_world !! "job-1" = Some created_job)
    by (vm_compute; reflexivity).
  split; [exact H |].
  exact (proj1 (youtube_download_success example_settings stub_components
                  "uploads" "https://youtu.be/x" "job-1" created_world
                  created_job H)).
Defined.

(** X15 at an empty table. *)
Lemma youtube_unknown_job_witness :
  jobs empty_world !! "job-1" = None
  /\ fst (_download_and_process_youtube example_settings stub_components
            "uploads" downloaded "https://youtu.be/x" "job-1" empty_world) =
     Raise (ValueError "Job job-1 not found").
Proof.
  assert (H : jobs empty_world !! "job-1" = None) by reflexivity.
  split; [exact H |].
  exact (proj1 (youtube_unknown_job example_settings stub_components
                  "uploads" downloaded "https://youtu.be/x" "job-1"
                  empty_world H)).
Defined.

(** X16 at a model that returns no segment. *)
Lemma WhisperTranscriber_transcribe_segments_witness :
  silent_whisper "/srv/via/storage/audio/job-1.wav" =
    Ok (WhisperResult.mk (Some []) None (Some ""))
  /\ exists transcript,
       WhisperTranscriber_transcribe silent_whisper (fun s => s)
         "/srv/via/storage/audio/job-1.wav" = Ok transcript
       /\ transcript <> [].
Proof.
  assert (E : silent_whisper "/srv/via/storage/audio/job-1.wav" =
              Ok (WhisperResult.mk (Some []) None (Some "")))
    by reflexivity.
  split; [exact E |].
  destruct (WhisperTranscriber_transcribe_segments silent_whisper
              (fun s => s) "/srv/via/storage/audio/job-1.wav" _ E)
    as (transcript & T & N & _).
  exists transcript. split; [exact T | exact N].
Defined.
